(** * Supply-chain risk dashboard: the ETL script [src/etl.py]

    A shallow embedding of the cleaning, validation and enrichment steps of
    [etl.py] and of its two enrichment sources, with the properties the
    specification states about them.

    Conventions of the embedding.
    - A pandas [Series] is the list of its cells; a [DataFrame] is the ordered
      list of its named columns.  A cell is missing ([NaN], [None] and [NaT]
      are not told apart), a number, a text or a timestamp.
    - Python floats and ints are rationals ([Q]): arithmetic is exact, an
      integer is a rational [z # 1].
    - Text is ASCII: a character above 127 has no case and is not white space.
    - A pandas call that raises is [None]; an object that the script mutates
      lives in a store of frames addressed by references. *)

From Stdlib Require Import Ascii String List ZArith QArith Qround Lqa Lia Sorted.
From stdpp Require Import base option list strings gmap.

Local Open Scope string_scope.

(** ** Cells, series and frames *)

Inductive cell : Type :=
  | NaN
  | Num (q : Q)
  | Str (s : string)
  | Ts (t : Z).

Abbreviation Series := (list cell).
Abbreviation DataFrame := (list (string * list cell)).

(** References to frames, and the store that holds them. *)
Abbreviation ref := nat (only parsing).
Abbreviation store := (gmap nat (list (string * list cell))).

Definition isna (c : cell) : bool :=
  match c with NaN => true | _ => false end.

Definition is_str (c : cell) : bool :=
  match c with Str _ => true | _ => false end.

(** The cells of a float64 or int64 column. *)
Definition is_numeric_cell (c : cell) : bool :=
  match c with NaN | Num _ => true | _ => false end.

(** The cells of a column of text read from a CSV file. *)
Definition is_text_cell (c : cell) : bool :=
  match c with NaN | Str _ => true | _ => false end.

(** Equality of two cells as pandas hashes them for [drop_duplicates] and
    [merge]: numbers by value, missing equal to missing. *)
Definition cell_eqb (a b : cell) : bool :=
  match a, b with
  | NaN, NaN => true
  | Num p, Num q => Qeq_bool p q
  | Str s, Str t => String.eqb s t
  | Ts s, Ts t => Z.eqb s t
  | _, _ => false
  end.

(** [n in l] for a list of names. *)
Definition mem (n : string) (l : list string) : bool := existsb (String.eqb n) l.

(** [column_names df] is [df.columns]. *)
Definition column_names (df : DataFrame) : list string := map fst df.

(** [col in df.columns] *)
Definition has_col (df : DataFrame) (col : string) : bool :=
  existsb (String.eqb col) (column_names df).

(** [df[col]]; [None] exactly when [col in df.columns] is false. *)
Fixpoint get_col (df : DataFrame) (col : string) : option Series :=
  match df with
  | [] => None
  | (n, s) :: rest => if String.eqb col n then Some s else get_col rest col
  end.

(** [df[col] = s]: the column is replaced where it stands, a new column is
    appended. *)
Fixpoint set_col (df : DataFrame) (col : string) (s : Series) : DataFrame :=
  match df with
  | [] => [(col, s)]
  | (n, old) :: rest =>
      if String.eqb col n then (n, s) :: rest else (n, old) :: set_col rest col s
  end.

(** [len(df)] *)
Definition nrows (df : DataFrame) : nat :=
  match df with
  | [] => 0
  | (_, s) :: _ => length s
  end.

(** Every column has one cell per row. *)
Definition rectangular (df : DataFrame) : Prop :=
  Forall (fun c => length (snd c) = nrows df) df.

(** ** Text: [str.strip], [str.title], [str.lower], [in] *)

Definition code (c : ascii) : nat := nat_of_ascii c.

(** [c.isspace()] on ASCII: tab to carriage return, the four separators
    28..31, and the blank. *)
Definition is_space (c : ascii) : bool :=
  let n := code c in
  ((9 <=? n)%nat && (n <=? 13)%nat) || ((28 <=? n)%nat && (n <=? 32)%nat).

Definition is_upper (c : ascii) : bool :=
  let n := code c in (65 <=? n)%nat && (n <=? 90)%nat.

Definition is_lower (c : ascii) : bool :=
  let n := code c in (97 <=? n)%nat && (n <=? 122)%nat.

Definition is_cased (c : ascii) : bool := is_upper c || is_lower c.

Definition to_lower (c : ascii) : ascii :=
  if is_upper c then ascii_of_nat (code c + 32) else c.

Definition to_upper (c : ascii) : ascii :=
  if is_lower c then ascii_of_nat (code c - 32) else c.

Fixpoint lower (s : string) : string :=
  match s with
  | EmptyString => EmptyString
  | String c s' => String (to_lower c) (lower s')
  end.

Fixpoint lstrip (s : string) : string :=
  match s with
  | EmptyString => EmptyString
  | String c s' => if is_space c then lstrip s' else s
  end.

Fixpoint rstrip (s : string) : string :=
  match s with
  | EmptyString => EmptyString
  | String c s' =>
      match rstrip s' with
      | EmptyString => if is_space c then EmptyString else String c EmptyString
      | r => String c r
      end
  end.

(** [s.strip()] *)
Definition strip (s : string) : string := rstrip (lstrip s).

(** [s.title()]: a cased character is put in upper case after an uncased one
    and in lower case after a cased one. *)
Definition title_char (previous_is_cased : bool) (c : ascii) : ascii :=
  if previous_is_cased then to_lower c else to_upper c.

Fixpoint title_from (previous_is_cased : bool) (s : string) : string :=
  match s with
  | EmptyString => EmptyString
  | String c s' => String (title_char previous_is_cased c) (title_from (is_cased c) s')
  end.

Definition title (s : string) : string := title_from false s.

(** A text that does not begin with white space. *)
Definition starts_clean (s : string) : bool :=
  match s with
  | EmptyString => true
  | String c _ => negb (is_space c)
  end.

Fixpoint starts_with (p s : string) : bool :=
  match p, s with
  | EmptyString, _ => true
  | String a p', String b s' => Ascii.eqb a b && starts_with p' s'
  | String _ _, EmptyString => false
  end.

(** [sub in s] *)
Fixpoint contains (sub s : string) : bool :=
  starts_with sub s ||
  match s with
  | EmptyString => false
  | String _ s' => contains sub s'
  end.

(** ** Numbers: truncation, order statistics *)

(** [int(q)]: the integer part, rounding toward zero. *)
Definition Qtrunc (q : Q) : Z := Z.quot (Qnum q) (Zpos (Qden q)).

Definition Qltb (a b : Q) : bool := negb (Qle_bool b a).

Fixpoint insert_sorted (x : Q) (l : list Q) : list Q :=
  match l with
  | [] => [x]
  | y :: l' => if Qle_bool x y then x :: l else y :: insert_sorted x l'
  end.

Definition sort (l : list Q) : list Q := foldr insert_sorted [] l.

(** The numbers of a column, missing cells skipped. *)
Definition nums (s : Series) : list Q :=
  flat_map (fun c => match c with Num q => [q] | _ => [] end) s.

(** ** Series operations of pandas *)

(** [s.fillna(v)] *)
Definition fillna (v : cell) (s : Series) : Series :=
  map (fun c => if isna c then v else c) s.

(** The middle of a sorted, non-empty list; the mean of the two middle values
    when the length is even. *)
Definition median_sorted (xs : list Q) : Q :=
  let n := length xs in
  if Nat.even n
  then ((nth (n / 2 - 1) xs 0 + nth (n / 2) xs 0) / 2)%Q
  else nth (n / 2) xs 0%Q.

(** [s.median()]: over the numbers of a numeric column, missing when there is
    none; a column holding text or timestamps raises [TypeError]. *)
Definition median (s : Series) : option cell :=
  if forallb is_numeric_cell s then
    Some (match sort (nums s) with
          | [] => NaN
          | xs => Num (median_sorted xs)
          end)
  else None.

(** Linear interpolation at the fractional position [(n - 1) * p] of a sorted
    list. *)
Definition quantile_sorted (xs : list Q) (p : Q) : Q :=
  let h := (inject_Z (Z.of_nat (length xs) - 1) * p)%Q in
  let i := Z.to_nat (Qfloor h) in
  let g := (h - inject_Z (Qfloor h))%Q in
  let lo := nth i xs 0%Q in
  let hi := nth (S i) xs lo in
  (lo + g * (hi - lo))%Q.

(** [s.quantile(p)], pandas' default (linear) estimator over the numbers of a
    numeric column. *)
Definition quantile (s : Series) (p : Q) : option cell :=
  if forallb is_numeric_cell s then
    Some (match sort (nums s) with
          | [] => NaN
          | xs => Num (quantile_sorted xs p)
          end)
  else None.

(** [s.clip(lower, upper)] with two scalar bounds, which pandas puts in order
    first; a missing cell stays missing. *)
Definition clip_value (lower upper q : Q) : Q :=
  let lo := if Qle_bool lower upper then lower else upper in
  let hi := if Qle_bool lower upper then upper else lower in
  if Qltb q lo then lo else if Qltb hi q then hi else q.

Definition clip (lower upper : Q) (s : Series) : Series :=
  map (fun c => match c with Num q => Num (clip_value lower upper q) | _ => c end) s.

(** [s.between(lo, hi)] on one cell: inclusive on both sides, false on a
    missing cell, [TypeError] when a text or a timestamp meets a number. *)
Definition between (lo hi : Q) (c : cell) : option bool :=
  match c with
  | Num q => Some (Qle_bool lo q && Qle_bool q hi)
  | NaN => Some false
  | _ => None
  end.

(** [s.replace(mapping)] with a dictionary: a text that is a key becomes its
    value, every other cell is kept. *)
Definition replace_cell (mapping : gmap string string) (c : cell) : cell :=
  match c with
  | Str x => match mapping !! x with Some v => Str v | None => c end
  | _ => c
  end.

Definition replace (mapping : gmap string string) (s : Series) : Series :=
  map (replace_cell mapping) s.

(** The [.str] accessor: it is refused ([AttributeError]) on a column that
    holds no text, unless the column is empty; on a column of mixed content a
    cell that is not a text gives a missing result. *)
Definition str_allowed (s : Series) : bool :=
  match s with [] => true | _ => existsb is_str s end.

Definition str_cell (f : string -> string) (c : cell) : cell :=
  match c with Str x => Str (f x) | _ => NaN end.

Definition str_map (f : string -> string) (s : Series) : option Series :=
  if str_allowed s then Some (map (str_cell f) s) else None.

(** [s.astype(int)]: numbers are truncated toward zero; a cell that is not a
    number raises. *)
Definition astype_int (s : Series) : option Series :=
  mapM (fun c => match c with
                 | Num q => Some (Num (inject_Z (Qtrunc q)))
                 | _ => None
                 end) s.

(** ** External collaborators

    The parsers of pandas, the two HTTP services and the sentiment scorer of
    TextBlob are parameters of the development.  A response is the decoded
    JSON document, [None] when the request or the decoding raises. *)

#[local] Set Warnings "-register-all".
Inductive json : Type :=
  | JNull
  | JBool (b : bool)
  | JNum (q : Q)
  | JStr (s : string)
  | JArr (items : list json)
  | JObj (fields : list (string * json)).

Class Collaborators : Type := {
  parse_numeric : string -> option Q;
  parse_datetime : string -> option Z;
  weather_api : string -> option json;
  news_api : string -> option json;
  polarity : string -> Q
}.

Section WithCollaborators.
Context `{Collaborators}.

(** One cell of [pd.to_datetime(s, errors="coerce")]: a timestamp is kept, a
    text is parsed, a number counts nanoseconds from the epoch, anything that
    cannot be read is missing. *)
Definition to_datetime_cell (c : cell) : cell :=
  match c with
  | NaN => NaN
  | Ts t => Ts t
  | Num q => Ts (Qtrunc q)
  | Str x => match parse_datetime x with Some t => Ts t | None => NaN end
  end.

(** One cell of [pd.to_numeric(s, errors="coerce")]. *)
Definition to_numeric_cell (c : cell) : cell :=
  match c with
  | NaN => NaN
  | Num q => Num q
  | Ts t => Num (inject_Z t)
  | Str x => match parse_numeric x with Some q => Num q | None => NaN end
  end.

(** ** The cleaning steps of [clean_data] *)

(** The keyword arguments of [clean_data]; [None] and the empty list are both
    falsy and are both the empty list here. *)
Record ColumnSpec : Type := {
  numeric_columns : list string;
  categorical_columns : list string;
  date_columns : list string
}.

(** Row [i] of a frame. *)
Definition row (df : DataFrame) (i : nat) : list cell :=
  map (fun c => nth i (snd c) NaN) df.

Definition rows (df : DataFrame) : list (list cell) :=
  map (row df) (seq 0 (nrows df)).

Definition row_eqb (r1 r2 : list cell) : bool :=
  forallb (fun p => cell_eqb (fst p) (snd p)) (combine r1 r2).

(** [~df.duplicated()]: a row is kept when no earlier row equals it on every
    column. *)
Fixpoint keep_first (seen : list (list cell)) (rs : list (list cell)) : list bool :=
  match rs with
  | [] => []
  | r :: rs' =>
      if existsb (row_eqb r) seen
      then false :: keep_first seen rs'
      else true :: keep_first (r :: seen) rs'
  end.

Definition keep_mask (df : DataFrame) : list bool := keep_first [] (rows df).

(** [s[mask]] *)
Fixpoint select (mask : list bool) (s : Series) : Series :=
  match mask, s with
  | b :: mask', c :: s' => if b then c :: select mask' s' else select mask' s'
  | _, _ => []
  end.

(** [df.drop_duplicates()] *)
Definition drop_duplicates (df : DataFrame) : DataFrame :=
  map (fun c => (fst c, select (keep_mask df) (snd c))) df.

(** [for col in cols: if col in df.columns: df[col] = body(df[col])] *)
Fixpoint for_each_col (body : Series -> option Series) (cols : list string)
    (df : DataFrame) : option DataFrame :=
  match cols with
  | [] => Some df
  | col :: cols' =>
      match get_col df col with
      | None => for_each_col body cols' df
      | Some s => s' ← body s; for_each_col body cols' (set_col df col s')
      end
  end.

(** Lines 32-33: [df[col].fillna(df[col].median())] *)
Definition fill_median (s : Series) : option Series :=
  m ← median s; Some (fillna m s).

(** Line 39: [df[col].fillna("Unknown")] *)
Definition fill_unknown (s : Series) : option Series :=
  Some (fillna (Str "Unknown") s).

(** Lines 45-46: [pd.to_datetime(df[col], errors="coerce")], then
    [fillna(pd.Timestamp("1970-01-01"))]. *)
Definition coerce_dates (s : Series) : option Series :=
  Some (fillna (Ts 0) (map to_datetime_cell s)).

(** Line 53: [df[col].str.strip().str.title()] *)
Definition normalize_text (s : Series) : option Series :=
  str_map strip s ≫= str_map title.

(** Line 60: [pd.to_numeric(df[col], errors="coerce").fillna(0).astype(int)] *)
Definition coerce_int (s : Series) : option Series :=
  astype_int (fillna (Num 0) (map to_numeric_cell s)).

(** The integer that line 60 leaves in a cell: the truncated number, 0 for a
    cell that [to_numeric] cannot read. *)
Definition int_of_cell (c : cell) : Z :=
  match to_numeric_cell c with Num q => Qtrunc q | _ => 0%Z end.


(** What the five loops do to the column named [c], one after the other. *)
Definition when (b : bool) (body : Series -> option Series) (s : Series)
    : option Series :=
  if b then body s else Some s.

Definition clean_column (spec : ColumnSpec) (c : string) (s : Series) : option Series :=
  s ← when (mem c (numeric_columns spec)) fill_median s;
  s ← when (mem c (categorical_columns spec)) fill_unknown s;
  s ← when (mem c (date_columns spec)) coerce_dates s;
  s ← when (mem c (categorical_columns spec)) normalize_text s;
  when (mem c (numeric_columns spec)) coerce_int s.

(** The frame that [clean_data] returns, computed from the frame it is given;
    the steps in the order of lines 26-61. *)
Definition clean_frame (df : DataFrame) (spec : ColumnSpec) : option DataFrame :=
  let df := drop_duplicates df in
  df ← for_each_col fill_median (numeric_columns spec) df;
  df ← for_each_col fill_unknown (categorical_columns spec) df;
  df ← for_each_col coerce_dates (date_columns spec) df;
  df ← for_each_col normalize_text (categorical_columns spec) df;
  for_each_col coerce_int (numeric_columns spec) df.

(** ** [handle_outliers], [standardize_countries], [validate_data] *)

(** The frame after [handle_outliers(df, column)], lines 68-78.  When the
    column holds no number both quartiles are missing and missing bounds clip
    nothing. *)
Definition handle_outliers_frame (df : DataFrame) (column : string) : option DataFrame :=
  match get_col df column with
  | None => Some df
  | Some s =>
      Q1 ← quantile s (1 # 4)%Q;
      Q3 ← quantile s (3 # 4)%Q;
      match Q1, Q3 with
      | Num q1, Num q3 =>
          let IQR := (q3 - q1)%Q in
          let lower_bound := (q1 - (3 # 2) * IQR)%Q in
          let upper_bound := (q3 + (3 # 2) * IQR)%Q in
          Some (set_col df column (clip lower_bound upper_bound s))
      | _, _ => Some (set_col df column s)
      end
  end.

Definition country_mapping : gmap string string :=
  <["Usa" := "United States"]>
  (<["Uk" := "United Kingdom"]>
  (<["Uae" := "United Arab Emirates"]> ∅)).

(** The frame after [standardize_countries(df, column)], lines 82-90, for any
    mapping. *)
Definition standardize_frame (mapping : gmap string string) (df : DataFrame)
    (column : string) : DataFrame :=
  match get_col df column with
  | None => df
  | Some s => set_col df column (replace mapping s)
  end.

(** One cell of line 122: a cell outside the range, or missing, receives
    [valid_range[0]]. *)
Definition validate_cell (lo hi : Q) (c : cell) : option cell :=
  (fun b : bool => if b then c else Num lo) <$> between lo hi c.

(** The frame after [validate_data(df, column, valid_range)], lines 120-124;
    [None] as range stands for Python's [None] and for the empty tuple. *)
Definition validate_frame (df : DataFrame) (column : string)
    (valid_range : option (Q * Q)) : option DataFrame :=
  match valid_range, get_col df column with
  | Some (lo, hi), Some s =>
      s' ← mapM (validate_cell lo hi) s; Some (set_col df column s')
  | _, _ => Some df
  end.

(** ** The merge of lines 214-218 *)

(** The positions, counted from [j], of the cells of [rk] equal to [k]. *)
Fixpoint positions (k : cell) (rk : Series) (j : nat) : list nat :=
  match rk with
  | [] => []
  | c :: rk' =>
      if cell_eqb k c then j :: positions k rk' (S j) else positions k rk' (S j)
  end.

(** The rows of a left join, in the order of the left keys: a left row is
    paired with every right row of the same key, and with no row when there is
    none. *)
Fixpoint join_plan (lk rk : Series) (i : nat) : list (nat * option nat) :=
  match lk with
  | [] => []
  | k :: lk' =>
      (match positions k rk 0 with
       | [] => [(i, None)]
       | js => map (fun j => (i, Some j)) js
       end ++ join_plan lk' rk (S i))%list
  end.

Definition take_left (plan : list (nat * option nat)) (s : Series) : Series :=
  map (fun p => nth (fst p) s NaN) plan.

Definition take_right (plan : list (nat * option nat)) (s : Series) : Series :=
  map (fun p => match snd p with Some j => nth j s NaN | None => NaN end) plan.

(** [left.merge(right, left_on=..., right_on=..., how="left")] for two key
    columns of different names, as in both calls of the script: both key
    columns are kept, a name found on both sides receives [_x] on the left and
    [_y] on the right, and a missing key column raises [KeyError]. *)
Definition merge_left (left right : DataFrame) (left_on right_on : string)
    : option DataFrame :=
  lk ← get_col left left_on;
  rk ← get_col right right_on;
  let plan := join_plan lk rk 0 in
  let clash n := mem n (column_names left) && mem n (column_names right) in
  Some (map (fun c => (if clash (fst c) then fst c +:+ "_x" else fst c,
                       take_left plan (snd c))) left
        ++ map (fun c => (if clash (fst c) then fst c +:+ "_y" else fst c,
                          take_right plan (snd c))) right)%list.

(** [df.drop(columns=names, errors="ignore")] *)
Definition drop_columns (names : list string) (df : DataFrame) : DataFrame :=
  List.filter (fun c => negb (mem (fst c) names)) df.

(** Lines 214-218. *)
Definition enrich (logistics_df weather_df news_df : DataFrame) : option DataFrame :=
  merged ← merge_left logistics_df weather_df "origin_country" "country";
  merged ← merge_left merged news_df "origin_country" "country";
  Some (drop_columns ["country_x"; "country_y"] merged).

(** ** Frames as objects: the store

    A Python name bound to a DataFrame is a reference into a store of frames.
    [df.copy()] allocates, [df[col] = ...] and [df.loc[...] = ...] write
    through the reference they are given. *)


(** A computation that reads and writes the store and may raise. *)
Definition M (A : Type) : Type := store -> option (A * store).

Definition ret {A} (a : A) : M A := fun σ => Some (a, σ).

Definition bind {A B} (m : M A) (k : A -> M B) : M B :=
  fun σ => match m σ with Some (a, σ') => k a σ' | None => None end.

Definition load (r : ref) : M DataFrame :=
  fun σ => match σ !! r with Some d => Some (d, σ) | None => None end.

Definition write (r : ref) (d : DataFrame) : M unit :=
  fun σ => Some (tt, <[r := d]> σ).

Definition alloc (d : DataFrame) : M ref :=
  fun σ => let r := fresh (dom σ) in Some (r, <[r := d]> σ).

Definition lift {A} (o : option A) : M A :=
  fun σ => match o with Some a => Some (a, σ) | None => None end.

(** A function that assigns into the frame it was given and returns it. *)
Definition in_place (f : DataFrame -> option DataFrame) (df : ref) : M ref :=
  bind (load df) (fun d =>
  bind (lift (f d)) (fun d' =>
  bind (write df d') (fun _ =>
  ret df))).

(** [clean_data]: line 21 rebinds [df] to a copy, every later assignment goes
    to the copy, and the copy is returned. *)
Definition clean_data (df : ref) (spec : ColumnSpec) : M ref :=
  bind (load df) (fun d =>
  bind (alloc d) (fun copy =>
  bind (lift (clean_frame d spec)) (fun d' =>
  bind (write copy d') (fun _ =>
  ret copy)))).

Definition handle_outliers (df : ref) (column : string) : M ref :=
  in_place (fun d => handle_outliers_frame d column) df.

Definition standardize_countries (df : ref) (column : string) : M ref :=
  in_place (fun d => Some (standardize_frame country_mapping d column)) df.

Definition validate_data (df : ref) (column : string)
    (valid_range : option (Q * Q)) : M ref :=
  in_place (fun d => validate_frame d column valid_range) df.

(** Lines 214-218 on objects: [merge] builds a new frame each time, and the
    final [drop(..., inplace=True)] assigns into that new frame. *)
Definition merge_all (logistics_df weather_df news_df : ref) : M ref :=
  bind (load logistics_df) (fun l =>
  bind (load weather_df) (fun w =>
  bind (load news_df) (fun n =>
  bind (lift (enrich l w n)) (fun merged =>
  alloc merged)))).

(** ** The script, lines 95-126 *)

Definition supplier_spec : ColumnSpec :=
  {| numeric_columns := ["on_time_delivery"];
     categorical_columns := ["supplier_name"];
     date_columns := ["order_date"] |}.

Definition logistics_spec : ColumnSpec :=
  {| numeric_columns := ["transit_time_days"];
     categorical_columns := ["origin_country"; "destination_country"];
     date_columns := [] |}.

(** Lines 95-100 and 108: each result is bound to the name of the argument. *)
Definition supplier_steps (supplier_df : ref) : M ref :=
  bind (clean_data supplier_df supplier_spec) (fun supplier_df =>
  handle_outliers supplier_df "on_time_delivery").

(** Lines 101-105, 109, 112-113 and 126. *)
Definition logistics_steps (logistics_df : ref) : M ref :=
  bind (clean_data logistics_df logistics_spec) (fun logistics_df =>
  bind (handle_outliers logistics_df "transit_time_days") (fun logistics_df =>
  bind (standardize_countries logistics_df "origin_country") (fun logistics_df =>
  bind (standardize_countries logistics_df "destination_country") (fun logistics_df =>
  validate_data logistics_df "transit_time_days" (Some (0, 365)%Q))))).

(** The same steps on the frame itself. *)
Definition logistics_frame (d : DataFrame) : option DataFrame :=
  d ← clean_frame d logistics_spec;
  d ← handle_outliers_frame d "transit_time_days";
  validate_frame
    (standardize_frame country_mapping
       (standardize_frame country_mapping d "origin_country") "destination_country")
    "transit_time_days" (Some (0, 365)%Q).

(** Lines 95-126 in the order of the script, with the two names rebound at
    each assignment. *)
Definition cleaning_script (supplier_df logistics_df : ref) : M (ref * ref) :=
  bind (clean_data supplier_df supplier_spec) (fun supplier_df =>
  bind (clean_data logistics_df logistics_spec) (fun logistics_df =>
  bind (handle_outliers supplier_df "on_time_delivery") (fun supplier_df =>
  bind (handle_outliers logistics_df "transit_time_days") (fun logistics_df =>
  bind (standardize_countries logistics_df "origin_country") (fun logistics_df =>
  bind (standardize_countries logistics_df "destination_country") (fun logistics_df =>
  bind (validate_data logistics_df "transit_time_days" (Some (0, 365)%Q))
    (fun logistics_df =>
  ret (supplier_df, logistics_df)))))))).

(** The steps of the supplier frame on the frame itself. *)
Definition supplier_frame (d : DataFrame) : option DataFrame :=
  d ← clean_frame d supplier_spec;
  handle_outliers_frame d "on_time_delivery".

(** ** The weather and news sources *)

(** [d[key]] on a decoded JSON value: only a dictionary holding the key
    answers; a repeated key keeps its last value. *)
Definition assoc (key : string) (fields : list (string * json)) : option json :=
  fold_left (fun acc kv => if String.eqb key (fst kv) then Some (snd kv) else acc)
            fields None.

Definition subscript (j : json) (key : string) : option json :=
  match j with
  | JObj fields => assoc key fields
  | _ => None
  end.

Definition as_str (j : json) : option string :=
  match j with JStr s => Some s | _ => None end.

Record weather_record : Type := {
  w_country : string;
  weather_condition : string;
  temperature_c : json;
  weather_risk : Q
}.

(** Lines 151-156. *)
Definition risk_of_condition (condition : string) : Q :=
  if contains "storm" (lower condition) || contains "rain" (lower condition)
  then (8 # 10)%Q
  else if contains "snow" (lower condition) then (7 # 10)%Q
  else (2 # 10)%Q.

(** Lines 143-158, [None] when any of them raises. *)
Definition weather_try (country : string) : option weather_record :=
  data ← weather_api country;
  current ← subscript data "current";
  condition ← subscript current "condition" ≫= (fun c => subscript c "text");
  temp_c ← subscript current "temp_c";
  text ← as_str condition;
  Some {| w_country := country; weather_condition := text;
          temperature_c := temp_c; weather_risk := risk_of_condition text |}.

(** Lines 160-161. *)
Definition weather_fallback (country : string) : weather_record :=
  {| w_country := country; weather_condition := "Unknown";
     temperature_c := JNull; weather_risk := (5 # 10)%Q |}.

Definition get_weather_for_country (country : string) : weather_record :=
  default (weather_fallback country) (weather_try country).

(** The dictionary a call returns: [news_risk] is [None] when the key is not
    set. *)
Record news_record : Type := {
  n_country : string;
  news_sentiment : Q;
  news_risk : option Q
}.

(** [not v] *)
Definition falsy (v : json) : bool :=
  match v with
  | JNull | JBool false | JStr EmptyString | JArr [] | JObj [] => true
  | JNum q => Qeq_bool q 0
  | _ => false
  end.

(** Line 183: [article["title"] + " " + article.get("description", "")];
    either operand that is not a text raises. *)
Definition article_text (article : json) : option string :=
  match article with
  | JObj fields =>
      t ← assoc "title" fields ≫= as_str;
      d ← as_str (default (JStr "") (assoc "description" fields));
      Some (t +:+ " " +:+ d)
  | _ => None
  end.

Definition Qsum (l : list Q) : Q := fold_left Qplus l 0%Q.

(** Line 189. *)
Definition risk_of_sentiment (avg_sentiment : Q) : Q :=
  (1 - ((avg_sentiment + 1) / 2))%Q.

(** Lines 171-190, [None] when any of them raises. *)
Definition news_try (country : string) : option news_record :=
  data ← news_api country;
  match data with
  | JObj fields =>
      let articles := default (JArr []) (assoc "articles" fields) in
      if falsy articles then
        Some {| n_country := country; news_sentiment := 0; news_risk := None |}
      else
        match articles with
        | JArr items =>
            texts ← mapM article_text items;
            let sentiments := map polarity texts in
            let avg_sentiment :=
              (Qsum sentiments / inject_Z (Z.of_nat (length sentiments)))%Q in
            Some {| n_country := country; news_sentiment := avg_sentiment;
                    news_risk := Some (risk_of_sentiment avg_sentiment) |}
        | _ => None
        end
  | _ => None
  end.

(** Line 192. *)
Definition news_fallback (country : string) : news_record :=
  {| n_country := country; news_sentiment := 0; news_risk := Some (5 # 10)%Q |}.

Definition get_news_sentiment_for_country (country : string) : news_record :=
  default (news_fallback country) (news_try country).

(** ** Lines 197-209: the records of the countries, as frames *)

(** [s.unique()]: the values in the order of their first occurrence. *)
Fixpoint unique_from (seen : Series) (s : Series) : Series :=
  match s with
  | [] => []
  | c :: s' =>
      if existsb (cell_eqb c) seen then unique_from seen s'
      else c :: unique_from (c :: seen) s'
  end.

Definition unique (s : Series) : Series := unique_from [] s.

(** Lines 202-206, for a key column of text: one record of each source per
    country, in the order of [unique_countries]. *)
Definition weather_data (unique_countries : list string) : list weather_record :=
  map get_weather_for_country unique_countries.

Definition news_data (unique_countries : list string) : list news_record :=
  map get_news_sentiment_for_country unique_countries.

(** Line 208, [pd.DataFrame(weather_data)]: one column per key of the
    dictionaries, and no column at all for the empty list.  [json_cell] is the
    cell in which pandas stores the decoded value of [temp_c]. *)
Definition weather_frame (json_cell : json -> cell) (data : list weather_record)
    : DataFrame :=
  match data with
  | [] => []
  | _ =>
      [("country", map (fun r => Str (w_country r)) data);
       ("weather_condition", map (fun r => Str (weather_condition r)) data);
       ("temperature_c", map (fun r => json_cell (temperature_c r)) data);
       ("weather_risk", map (fun r => Num (weather_risk r)) data)]
  end.

Definition has_risk (r : news_record) : bool :=
  match news_risk r with Some _ => true | None => false end.

Definition risk_cell (r : news_record) : cell :=
  match news_risk r with Some q => Num q | None => NaN end.

(** Line 209, [pd.DataFrame(news_data)]: the column [news_risk] exists when a
    dictionary has the key, and is missing in the rows of those that have it
    not. *)
Definition news_frame (data : list news_record) : DataFrame :=
  match data with
  | [] => []
  | _ =>
      ([("country", map (fun r => Str (n_country r)) data);
        ("news_sentiment", map (fun r => Num (news_sentiment r)) data)]
       ++ (if existsb has_risk data
           then [("news_risk", map risk_cell data)]
           else []))%list
  end.

(** Lines 208-218 after the loop. *)
Definition merge_realtime (json_cell : json -> cell) (logistics_df : DataFrame)
    (unique_countries : list string) : option DataFrame :=
  enrich logistics_df
    (weather_frame json_cell (weather_data unique_countries))
    (news_frame (news_data unique_countries)).

End WithCollaborators.

(** ** Predicates of the statements *)

(** A number of the closed interval [[lo, hi]]. *)
Definition in_range (lo hi : Q) (c : cell) : Prop :=
  exists q, c = Num q /\ (lo <= q)%Q /\ (q <= hi)%Q.

(** A cell holding an integer, a normalised text, a timestamp. *)
Definition int_cell (c : cell) : Prop := exists z, c = Num (inject_Z z).

(** The three lists of a column specification name different columns. *)
Definition disjoint_spec (spec : ColumnSpec) : Prop :=
  (forall c, In c (numeric_columns spec) -> ~ In c (categorical_columns spec)) /\
  (forall c, In c (numeric_columns spec) -> ~ In c (date_columns spec)) /\
  (forall c, In c (categorical_columns spec) -> ~ In c (date_columns spec)).

(** The numeric columns of the specification hold numbers or nothing, *)
Definition numeric_typed (spec : ColumnSpec) (df : DataFrame) : Prop :=
  forall c s, In c (numeric_columns spec) -> get_col df c = Some s ->
    forallb is_numeric_cell s = true.

(** and its categorical columns hold text or nothing. *)
Definition text_typed (spec : ColumnSpec) (df : DataFrame) : Prop :=
  forall c s, In c (categorical_columns spec) -> get_col df c = Some s ->
    forallb is_text_cell s = true.


(** No key occurs in more than one row of a key column. *)
Definition unique_keys (rk : Series) : Prop :=
  forall k, (length (List.filter (cell_eqb k) rk) <= 1)%nat.

(** The cells that a left join on unique right keys puts beside the left keys
    [lk]: the cell of the matching right row, missing when no row matches. *)
Definition joined (lk rk s : Series) : Series :=
  map (fun k => match head (positions k rk 0) with
                | Some j => nth j s NaN
                | None => NaN
                end) lk.

(** The columns that lines 214-215 add to the base frame when its column
    names are found in neither enrichment frame: those of [weather], then
    those of [news], a name present on both sides of the second merge with
    its suffix. *)
Definition enrichment_columns (base weather news : DataFrame) (lk wk nk : Series)
    : DataFrame :=
  (map (fun c => (if mem (fst c) (column_names news) then fst c +:+ "_x" else fst c,
                  joined lk wk (snd c))) weather
   ++ map (fun c => (if mem (fst c) (column_names base ++ column_names weather)%list
                     then fst c +:+ "_y" else fst c,
                     joined lk nk (snd c))) news)%list.

(** ** Sample collaborators and sample data

    One instance of the collaborators, for the examples: decimal integers,
    two dates, two countries and a few headlines. *)

Definition digit_of (c : ascii) : option Z :=
  let n := code c in
  if (48 <=? n)%nat && (n <=? 57)%nat then Some (Z.of_nat (n - 48)) else None.

Fixpoint parse_digits (s : string) (acc : Z) : option Z :=
  match s with
  | EmptyString => Some acc
  | String c s' => d ← digit_of c; parse_digits s' (acc * 10 + d)%Z
  end.

Definition sample_parse_numeric (s : string) : option Q :=
  match s with
  | EmptyString => None
  | String "-" (String _ _ as s') => (fun z => inject_Z (- z)) <$> parse_digits s' 0
  | _ => inject_Z <$> parse_digits s 0
  end.

Definition sample_parse_datetime (s : string) : option Z :=
  if String.eqb s "1970-01-02" then Some 86400000000000%Z
  else if String.eqb s "2024-01-01" then Some 1704067200000000000%Z
  else None.

Definition sample_weather_api (country : string) : option json :=
  if String.eqb country "France" then
    Some (JObj [("location", JObj [("name", JStr "Paris")]);
                ("current", JObj [("temp_c", JNum (12 # 1));
                                  ("condition", JObj [("text", JStr "Light Rain shower")])])])
  else if String.eqb country "Norway" then
    Some (JObj [("current", JObj [("temp_c", JNum (-4 # 1));
                                  ("condition", JObj [("text", JStr "Heavy SNOW")])])])
  else if String.eqb country "Spain" then
    Some (JObj [("current", JObj [("temp_c", JNum (25 # 1));
                                  ("condition", JObj [("text", JStr "Sunny")])])])
  else if String.eqb country "Atlantis" then
    Some (JObj [("error", JObj [("code", JNum (1006 # 1))])])
  else None.

Definition sample_news_api (country : string) : option json :=
  if String.eqb country "France" then
    Some (JObj [("status", JStr "ok");
                ("articles", JArr [JObj [("title", JStr "Strike ends");
                                         ("description", JStr "Ports reopen")];
                                   JObj [("title", JStr "Flood warning")]])])
  else if String.eqb country "Norway" then
    Some (JObj [("status", JStr "ok"); ("articles", JArr [])])
  else if String.eqb country "Spain" then
    Some (JObj [("articles", JArr [JObj [("title", JStr "Fair opens");
                                         ("description", JNull)]])])
  else None.

Definition sample_polarity (text : string) : Q :=
  if String.eqb text "Strike ends Ports reopen" then (1 # 2)%Q
  else if String.eqb text "Flood warning " then (-1)%Q
  else 0%Q.

Definition sample_json_cell (j : json) : cell :=
  match j with
  | JNum q => Num q
  | JStr s => Str s
  | _ => NaN
  end.

Definition sample_collaborators : Collaborators := {|
  parse_numeric := sample_parse_numeric;
  parse_datetime := sample_parse_datetime;
  weather_api := sample_weather_api;
  news_api := sample_news_api;
  polarity := sample_polarity
|}.

(** Sample frames. *)

Definition sample_spec : ColumnSpec :=
  {| numeric_columns := ["transit_time_days"];
     categorical_columns := ["origin_country"];
     date_columns := ["ship_date"] |}.

Definition sample_logistics : DataFrame :=
  [("origin_country", [Str "usa"; Str " Usa "; NaN; Str "france"]);
   ("transit_time_days", [Num 10; Num 10; NaN; Num (25 # 2)]);
   ("ship_date", [Str "2024-01-01"; Str "2024-01-01"; Str "soon"; NaN])].

Definition sample_cleaned : DataFrame :=
  [("origin_country", [Str "Usa"; Str "Usa"; Str "Unknown"; Str "France"]);
   ("transit_time_days", [Num 10; Num 10; Num 10; Num 12]);
   ("ship_date", [Ts 1704067200000000000; Ts 1704067200000000000; Ts 0; Ts 0])].

Definition sample_cleaned_twice : DataFrame :=
  [("origin_country", [Str "Usa"; Str "Unknown"; Str "France"]);
   ("transit_time_days", [Num 10; Num 10; Num 12]);
   ("ship_date", [Ts 1704067200000000000; Ts 0; Ts 0])].

Definition sample_unmeasured : DataFrame :=
  [("origin_country", [Str "Peru"; Str "Chile"]);
   ("transit_time_days", [NaN; NaN])].

Definition sample_transit : DataFrame :=
  [("transit_time_days", [Num 4; Num 5; Num 6; Num 7; Num 400])].

(** The quartiles of [sample_transit] are 5 and 7, the upper bound is 10; the
    interpolation leaves it as the fraction 1280/128. *)
Definition sample_transit_capped : DataFrame :=
  [("transit_time_days", [Num 4; Num 5; Num 6; Num 7; Num (1280 # 128)])].

Definition sample_base : DataFrame :=
  [("origin_country", [Str "France"; Str "Spain"; Str "France"]);
   ("transit_time_days", [Num 3; Num 5; Num 8])].



(** Two frames as the script reads them from its files. *)

Definition sample_supplier : DataFrame :=
  [("supplier_name", [Str " acme ltd"; NaN; Str "Borealis"]);
   ("on_time_delivery", [Num 95; NaN; Num 80]);
   ("order_date", [Str "2024-01-01"; Str "soon"; NaN])].

Definition sample_shipments : DataFrame :=
  [("origin_country", [Str "usa"; Str " uk "; NaN]);
   ("destination_country", [Str "UAE"; Str "france"; Str "Usa"]);
   ("transit_time_days", [Num 12; NaN; Num 400])].

(** ** What the cleaning leaves in a cell *)


(** ** Rows kept by a mask *)

(** The positions, counted from [j], at which a mask is true. *)
Fixpoint kept_positions (mask : list bool) (j : nat) : list nat :=
  match mask with
  | [] => []
  | b :: mask' =>
      if b then j :: kept_positions mask' (S j) else kept_positions mask' (S j)
  end.

(** [select] for a list of any kind (the rows of a frame). *)
Fixpoint pick {A} (mask : list bool) (l : list A) : list A :=
  match mask, l with
  | b :: mask', x :: l' => if b then x :: pick mask' l' else pick mask' l'
  | _, _ => []
  end.

(** ** Row counts of a left join *)



(** The column names that lines 208-218 use: a base frame must not have them. *)
Definition realtime_names : list string :=
  ["country"; "weather_condition"; "temperature_c"; "weather_risk";
   "news_sentiment"; "news_risk"; "country_x"; "country_y"].

(** * Properties *)

(** ** Columns of a frame *)

Lemma map_fixed {A} (f : A -> A) (l : list A) :
  (forall x, In x l -> f x = x) -> map f l = l.
Proof.
  intros Hf. induction l as [|x l IH]; simpl; [reflexivity|].
  rewrite Hf by now left. rewrite IH; [reflexivity|]. intros y Hy. apply Hf. now right.
Qed.

Lemma get_set_same (df : DataFrame) (col : string) (s : Series) :
  get_col (set_col df col s) col = Some s.
Proof.
  induction df as [|[n old] rest IH]; simpl.
  - now rewrite String.eqb_refl.
  - destruct (String.eqb col n) eqn:E; simpl; rewrite E; auto.
Qed.

Lemma get_set_other (df : DataFrame) (col col' : string) (s : Series) :
  col <> col' -> get_col (set_col df col s) col' = get_col df col'.
Proof.
  intros Hne. induction df as [|[n old] rest IH]; simpl.
  - destruct (String.eqb_spec col' col); congruence.
  - destruct (String.eqb_spec col n) as [->|Hn]; simpl.
    + destruct (String.eqb_spec col' n); congruence.
    + now rewrite IH.
Qed.

Lemma set_get_id (df : DataFrame) (col : string) (s : Series) :
  get_col df col = Some s -> set_col df col s = df.
Proof.
  induction df as [|[n old] rest IH]; simpl; [discriminate|].
  destruct (String.eqb col n); intros Hg.
  - congruence.
  - now rewrite IH.
Qed.

Lemma names_set_col (df : DataFrame) (col : string) (s0 s : Series) :
  get_col df col = Some s0 -> column_names (set_col df col s) = column_names df.
Proof.
  unfold column_names.
  induction df as [|[n old] rest IH]; simpl; [discriminate|].
  destruct (String.eqb col n); simpl; intros Hg; [reflexivity|].
  now rewrite IH.
Qed.

Lemma has_col_get (df : DataFrame) (col : string) :
  has_col df col = true <-> is_Some (get_col df col).
Proof.
  unfold has_col, column_names.
  induction df as [|[n s] rest IH]; simpl.
  - split; [discriminate | intros [? ?]; discriminate].
  - destruct (String.eqb col n); simpl; [split; eauto | exact IH].
Qed.

Lemma mapM_validate_spec lo hi s : forallb is_numeric_cell s = true ->
  mapM (validate_cell lo hi) s =
  Some (map (fun c => match c with
     | Num q => if Qle_bool lo q && Qle_bool q hi then c else Num lo
     | _ => Num lo end) s).
Proof.
  induction s as [|c s IH]; simpl; [reflexivity|].
  intros Hn. apply andb_prop in Hn as [Hc Hs].
  rewrite (IH Hs).
  destruct c; try discriminate; reflexivity.
Qed.

Lemma lookup_map {A B} (f : A -> B) (l : list A) (i : nat) :
  map f l !! i = f <$> l !! i.
Proof.
  revert i. induction l as [|a l IH]; intros [|i]; simpl; auto.
Qed.

(** ** CategoryMapper *)

Lemma country_mapping_values_not_keys (k v : string) :
  country_mapping !! k = Some v -> country_mapping !! v = None.
Proof.
  unfold country_mapping.
  rewrite !lookup_insert.
  repeat case_decide; subst; intros Hv; simplify_eq; vm_compute; reflexivity.
Qed.

Lemma replace_cell_idem (mapping : gmap string string) (c : cell) :
  (forall k v, mapping !! k = Some v -> mapping !! v = None) ->
  replace_cell mapping (replace_cell mapping c) = replace_cell mapping c.
Proof.
  intros Hm. destruct c as [| |x|]; simpl; try reflexivity.
  destruct (mapping !! x) as [v|] eqn:E; simpl.
  - now rewrite (Hm _ _ E).
  - now rewrite E.
Qed.

Lemma replace_idem (mapping : gmap string string) (s : Series) :
  (forall k v, mapping !! k = Some v -> mapping !! v = None) ->
  replace mapping (replace mapping s) = replace mapping s.
Proof.
  intros Hm. unfold replace. rewrite map_map.
  apply map_ext. intros c. apply (replace_cell_idem mapping c Hm).
Qed.

Lemma standardize_frame_idem (mapping : gmap string string) (df : DataFrame) (column : string) :
  (forall k v, mapping !! k = Some v -> mapping !! v = None) ->
  standardize_frame mapping (standardize_frame mapping df column) column
  = standardize_frame mapping df column.
Proof.
  intros Hm. unfold standardize_frame.
  destruct (get_col df column) as [s|] eqn:E.
  - rewrite get_set_same, replace_idem by exact Hm.
    apply set_get_id, get_set_same.
  - now rewrite E.
Qed.

(** C9. [standardize_countries] rewrites a cell exactly when it is a text
    equal to a key of the country mapping (to the value of that key) and keeps
    every other cell and every other column; an absent column changes
    nothing; no value of the mapping is a key, so a second application changes
    nothing more; and ["Usa"] becomes ["United States"]. *)
Theorem standardize_countries_substitution :
  (forall df column, get_col df column = None ->
     standardize_frame country_mapping df column = df) /\
  (forall df column s, get_col df column = Some s ->
     get_col (standardize_frame country_mapping df column) column
       = Some (replace country_mapping s) /\
     length (replace country_mapping s) = length s /\
     (forall other, other <> column ->
        get_col (standardize_frame country_mapping df column) other = get_col df other) /\
     (forall i k v, s !! i = Some (Str k) -> country_mapping !! k = Some v ->
        replace country_mapping s !! i = Some (Str v)) /\
     (forall i c, s !! i = Some c ->
        (forall k, c = Str k -> country_mapping !! k = None) ->
        replace country_mapping s !! i = Some c)) /\
  (forall k v, country_mapping !! k = Some v -> country_mapping !! v = None) /\
  (forall df column,
     standardize_frame country_mapping (standardize_frame country_mapping df column) column
     = standardize_frame country_mapping df column) /\
  standardize_frame country_mapping [("origin_country", [Str "Usa"; Str "usa"; Str "USA"])]
    "origin_country"
  = [("origin_country", [Str "United States"; Str "usa"; Str "USA"])].
Proof.
  split; [|split; [|split; [|split]]].
  - intros df column Hg. unfold standardize_frame. now rewrite Hg.
  - intros df column s Hg. unfold standardize_frame. rewrite Hg.
    split; [apply get_set_same|].
    split; [apply length_map|].
    split; [intros other Hne; now apply get_set_other|].
    split.
    + intros i k v Hi Hk. unfold replace. rewrite lookup_map, Hi. simpl.
      now rewrite Hk.
    + intros i c Hi Hc. unfold replace. rewrite lookup_map, Hi. simpl.
      destruct c as [| |x|]; try reflexivity.
      simpl. now rewrite (Hc x eq_refl).
  - exact country_mapping_values_not_keys.
  - intros df column. apply standardize_frame_idem, country_mapping_values_not_keys.
  - vm_compute. reflexivity.
Qed.

(** ** RangeValidator *)


(** ** Sorting and quantiles *)

Lemma Qltb_lt (a b : Q) : Qltb a b = true <-> (a < b)%Q.
Proof.
  unfold Qltb. rewrite negb_true_iff.
  destruct (Qle_bool b a) eqn:E.
  - apply Qle_bool_iff in E. split; [discriminate | intros; lra].
  - split; [intros _|reflexivity].
    apply Qnot_le_lt. intros Hle. apply Qle_bool_iff in Hle. congruence.
Qed.

Lemma insert_sorted_In (x y : Q) (l : list Q) :
  In y (insert_sorted x l) -> y = x \/ In y l.
Proof.
  induction l as [|z l IH]; simpl.
  - intros [->|[]]; auto.
  - destruct (Qle_bool x z); simpl; intros [->|Hin]; auto.
    destruct (IH Hin); auto.
Qed.

Lemma insert_sorted_sorted (x : Q) (l : list Q) :
  StronglySorted Qle l -> StronglySorted Qle (insert_sorted x l).
Proof.
  induction 1 as [|z l Hs IH Hz]; simpl.
  - constructor; constructor.
  - destruct (Qle_bool x z) eqn:E.
    + apply Qle_bool_iff in E.
      constructor; [constructor; assumption|].
      constructor; [exact E|].
      eapply List.Forall_impl; [|exact Hz]. intros; simpl in *; lra.
    + constructor; [exact IH|].
      apply List.Forall_forall. intros y Hy.
      apply insert_sorted_In in Hy as [->|Hy].
      * assert (~ (x <= z)%Q) by (rewrite <- Qle_bool_iff; congruence). lra.
      * rewrite List.Forall_forall in Hz. auto.
Qed.

Lemma sort_sorted (l : list Q) : StronglySorted Qle (sort l).
Proof.
  induction l as [|x l IH]; simpl; [constructor|].
  now apply insert_sorted_sorted.
Qed.

Lemma sorted_nth (xs : list Q) (i j : nat) (d d' : Q) :
  StronglySorted Qle xs -> (i <= j)%nat -> (j < length xs)%nat ->
  (nth i xs d <= nth j xs d')%Q.
Proof.
  intros Hs. revert i j. induction Hs as [|x xs Hs IH Hx]; intros i j Hij Hj.
  - simpl in Hj. lia.
  - destruct i as [|i], j as [|j]; simpl in *; try lia.
    + lra.
    + rewrite List.Forall_forall in Hx. apply Hx, nth_In. lia.
    + apply IH; lia.
Qed.

(** The interpolated value lies between its two neighbours. *)
Lemma interpolate_between (lo hi g : Q) :
  (lo <= hi)%Q -> (0 <= g)%Q -> (g <= 1)%Q ->
  (lo <= lo + g * (hi - lo))%Q /\ (lo + g * (hi - lo) <= hi)%Q.
Proof. intros. split; nra. Qed.

Lemma quantile_sorted_mono (xs : list Q) (p1 p2 : Q) :
  StronglySorted Qle xs -> xs <> [] ->
  (0 <= p1)%Q -> (p1 <= p2)%Q -> (p2 <= 1)%Q ->
  (quantile_sorted xs p1 <= quantile_sorted xs p2)%Q.
Proof.
  intros Hs Hne H0 H12 H1. unfold quantile_sorted.
  set (m := inject_Z (Z.of_nat (length xs) - 1)).
  assert (Hlen : (0 < length xs)%nat) by (destruct xs; simpl; [congruence|lia]).
  assert (Hm : (0 <= m)%Q).
  { unfold m. change 0%Q with (inject_Z 0). rewrite <- Zle_Qle. lia. }
  set (h1 := (m * p1)%Q). set (h2 := (m * p2)%Q).
  assert (Hh1 : (0 <= h1)%Q) by (unfold h1; nra).
  assert (Hh12 : (h1 <= h2)%Q) by (unfold h1, h2; nra).
  assert (Hh2 : (h2 <= m)%Q) by (unfold h2; nra).
  assert (Hf1 : (0 <= Qfloor h1)%Z).
  { change 0%Z with (Qfloor 0). now apply Qfloor_resp_le. }
  assert (Hf12 : (Qfloor h1 <= Qfloor h2)%Z) by now apply Qfloor_resp_le.
  assert (Hf2 : (Qfloor h2 <= Z.of_nat (length xs) - 1)%Z).
  { rewrite <- (Qfloor_Z (Z.of_nat (length xs) - 1)). now apply Qfloor_resp_le. }
  pose proof (Qfloor_le h1) as Hg1. pose proof (Qlt_floor h1) as Hg1'.
  pose proof (Qfloor_le h2) as Hg2. pose proof (Qlt_floor h2) as Hg2'.
  rewrite inject_Z_plus in Hg1', Hg2'. change (inject_Z 1) with 1%Q in Hg1', Hg2'.
  set (i1 := Z.to_nat (Qfloor h1)). set (i2 := Z.to_nat (Qfloor h2)).
  assert (Hi12 : (i1 <= i2)%nat) by (unfold i1, i2; lia).
  assert (Hi2 : (i2 < length xs)%nat) by (unfold i2; lia).
  assert (Hnb : forall i, (i < length xs)%nat ->
                 (nth i xs 0 <= nth (S i) xs (nth i xs 0))%Q).
  { intros i Hi. destruct (Nat.lt_ge_cases (S i) (length xs)).
    - apply sorted_nth; auto.
    - rewrite (nth_overflow xs (nth i xs 0%Q)) by lia. lra. }
  pose proof (Hnb i1 ltac:(lia)) as Hn1. pose proof (Hnb i2 Hi2) as Hn2.
  set (g1 := (h1 - inject_Z (Qfloor h1))%Q) in *.
  set (g2 := (h2 - inject_Z (Qfloor h2))%Q) in *.
  assert (Hg1r : (0 <= g1)%Q /\ (g1 <= 1)%Q) by (unfold g1; split; lra).
  assert (Hg2r : (0 <= g2)%Q /\ (g2 <= 1)%Q) by (unfold g2; split; lra).
  destruct (Nat.eq_dec i1 i2) as [Heq|Hneq].
  - assert (Hfeq : Qfloor h1 = Qfloor h2) by (unfold i1, i2 in Heq; lia).
    rewrite <- Heq.
    assert (Hg12 : (g1 <= g2)%Q) by (unfold g1, g2; rewrite Hfeq; lra).
    set (lo := nth i1 xs 0%Q) in *. set (hi := nth (S i1) xs lo) in *.
    nra.
  - assert (Hmid : (nth (S i1) xs (nth i1 xs 0) <= nth i2 xs 0)%Q).
    { apply sorted_nth; auto; lia. }
    destruct (interpolate_between _ _ g1 Hn1 (proj1 Hg1r) (proj2 Hg1r)) as [_ Hv1].
    destruct (interpolate_between _ _ g2 Hn2 (proj1 Hg2r) (proj2 Hg2r)) as [Hv2 _].
    lra.
Qed.

(** ** OutlierCapper *)

Lemma insert_sorted_not_nil (x : Q) (l : list Q) : insert_sorted x l <> [].
Proof. destruct l as [|y l]; simpl; [|destruct (Qle_bool x y)]; discriminate. Qed.

Lemma sort_nil_inv (l : list Q) : sort l = [] -> l = [].
Proof.
  destruct l as [|x l]; simpl; [reflexivity|].
  intros E. now apply insert_sorted_not_nil in E.
Qed.

Lemma clip_value_spec (lower upper q : Q) :
  (lower <= upper)%Q ->
  ((q < lower)%Q -> clip_value lower upper q = lower) /\
  ((upper < q)%Q -> clip_value lower upper q = upper) /\
  ((lower <= q)%Q /\ (q <= upper)%Q -> clip_value lower upper q = q) /\
  (lower <= clip_value lower upper q)%Q /\ (clip_value lower upper q <= upper)%Q.
Proof.
  intros Hle. unfold clip_value.
  apply Qle_bool_iff in Hle as Hb. rewrite Hb.
  destruct (Qltb q lower) eqn:E1; [|destruct (Qltb upper q) eqn:E2].
  - apply Qltb_lt in E1. repeat split; intros; try reflexivity; lra.
  - apply Qltb_lt in E2.
    assert (~ (q < lower)%Q) by (rewrite <- Qltb_lt; congruence).
    repeat split; intros; try reflexivity; lra.
  - assert (~ (q < lower)%Q) by (rewrite <- Qltb_lt; congruence).
    assert (~ (upper < q)%Q) by (rewrite <- Qltb_lt; congruence).
    repeat split; intros; try reflexivity; lra.
Qed.

(** C3. [handle_outliers] returns the frame as it is when the column is
    absent.  On a numeric column it returns; a missing cell stays missing; and
    with [Q1], [Q3] the quartiles of the column as it was given,
    [lower = Q1 - 1.5 * IQR] and [upper = Q3 + 1.5 * IQR]: [lower <= upper], a
    number below [lower] becomes [lower], a number above [upper] becomes
    [upper], any other number is kept, and every number of the column then
    lies in [[lower, upper]].  The quartiles exist as soon as the column holds
    a number. *)
Theorem handle_outliers_caps :
  (forall df column,
     get_col df column = None -> handle_outliers_frame df column = Some df) /\
  (forall df column s,
     get_col df column = Some s ->
     forallb is_numeric_cell s = true ->
     exists s',
       handle_outliers_frame df column = Some (set_col df column s') /\
       length s' = length s /\
       (forall i, s !! i = Some NaN -> s' !! i = Some NaN) /\
       (nums s <> [] ->
        exists q1 q3, quantile s (1 # 4) = Some (Num q1) /\
                      quantile s (3 # 4) = Some (Num q3)) /\
       (forall q1 q3,
          quantile s (1 # 4) = Some (Num q1) ->
          quantile s (3 # 4) = Some (Num q3) ->
          let lower := (q1 - (3 # 2) * (q3 - q1))%Q in
          let upper := (q3 + (3 # 2) * (q3 - q1))%Q in
          (lower <= upper)%Q /\
          (forall i q, s !! i = Some (Num q) -> (q < lower)%Q ->
             s' !! i = Some (Num lower)) /\
          (forall i q, s !! i = Some (Num q) -> (upper < q)%Q ->
             s' !! i = Some (Num upper)) /\
          (forall i q, s !! i = Some (Num q) -> (lower <= q)%Q /\ (q <= upper)%Q ->
             s' !! i = Some (Num q)) /\
          Forall (fun c => c = NaN \/ in_range lower upper c) s')) /\
  handle_outliers_frame
    [("on_time_delivery", [Num 10; Num 12; Num 11; Num 1000; Num 9; Num 11])]
    "on_time_delivery"
  = Some [("on_time_delivery",
           [Num 10; Num 12; Num 11; Num ((47 # 4) + (3 # 2) * ((47 # 4) - (41 # 4)));
            Num 9; Num 11])].
Proof.
  split; [|split].
  - intros df column Hg. unfold handle_outliers_frame. now rewrite Hg.
  - intros df column s Hg Hn. unfold handle_outliers_frame. rewrite Hg.
    unfold quantile. rewrite Hn. simpl.
    destruct (sort (nums s)) as [|x xs] eqn:E; simpl.
    + exists s. split; [reflexivity|]. split; [reflexivity|].
      split; [auto|]. split.
      * intros Hne. exfalso. now apply Hne, sort_nil_inv.
      * intros q1 q3 [=].
    + eexists. split; [reflexivity|]. split; [apply length_map|].
      split; [|split].
      * intros i Hi. unfold clip. now rewrite lookup_map, Hi.
      * intros _. eauto.
      * intros q1 q3 [= <-] [= <-].
        set (lower := (quantile_sorted (x :: xs) (1 # 4) - _)%Q).
        set (upper := (quantile_sorted (x :: xs) (3 # 4) + _)%Q).
        assert (Hq : (quantile_sorted (x :: xs) (1 # 4)
                      <= quantile_sorted (x :: xs) (3 # 4))%Q).
        { apply quantile_sorted_mono; try lra; [|discriminate].
          rewrite <- E. apply sort_sorted. }
        assert (Hle : (lower <= upper)%Q) by (unfold lower, upper; lra).
        split; [exact Hle|].
        split; [|split; [|split]].
        -- intros i q Hi Hlt. unfold clip. rewrite lookup_map, Hi. simpl.
           f_equal. f_equal. now apply (clip_value_spec lower upper q Hle).
        -- intros i q Hi Hlt. unfold clip. rewrite lookup_map, Hi. simpl.
           f_equal. f_equal. now apply (clip_value_spec lower upper q Hle).
        -- intros i q Hi Hin. unfold clip. rewrite lookup_map, Hi. simpl.
           f_equal. f_equal. now apply (clip_value_spec lower upper q Hle).
        -- apply List.Forall_forall. intros c Hc.
           apply in_map_iff in Hc as [c0 [<- Hc0]].
           rewrite forallb_forall in Hn. specialize (Hn c0 Hc0).
           destruct c0 as [|q| |]; try discriminate; [now left|].
           right. exists (clip_value lower upper q). split; [reflexivity|].
           apply (clip_value_spec lower upper q Hle).
  - vm_compute. reflexivity.
Qed.

(** ** Text normalisation *)

Ltac by_cases_on_ascii c :=
  destruct c as [[] [] [] [] [] [] [] []]; vm_compute; reflexivity.

Lemma is_space_to_lower (c : ascii) : is_space (to_lower c) = is_space c.
Proof. by_cases_on_ascii c. Qed.

Lemma is_space_to_upper (c : ascii) : is_space (to_upper c) = is_space c.
Proof. by_cases_on_ascii c. Qed.

Lemma is_cased_to_lower (c : ascii) : is_cased (to_lower c) = is_cased c.
Proof. by_cases_on_ascii c. Qed.

Lemma is_cased_to_upper (c : ascii) : is_cased (to_upper c) = is_cased c.
Proof. by_cases_on_ascii c. Qed.

Lemma to_lower_idem (c : ascii) : to_lower (to_lower c) = to_lower c.
Proof. by_cases_on_ascii c. Qed.

Lemma to_upper_idem (c : ascii) : to_upper (to_upper c) = to_upper c.
Proof. by_cases_on_ascii c. Qed.

Lemma title_char_facts (b : bool) (c : ascii) :
  is_space (title_char b c) = is_space c /\
  is_cased (title_char b c) = is_cased c /\
  title_char b (title_char b c) = title_char b c.
Proof.
  destruct b; simpl;
    auto using is_space_to_lower, is_space_to_upper, is_cased_to_lower,
               is_cased_to_upper, to_lower_idem, to_upper_idem.
Qed.

Lemma title_from_idem (b : bool) (s : string) :
  title_from b (title_from b s) = title_from b s.
Proof.
  revert b. induction s as [|c s IH]; intros b; simpl; [reflexivity|].
  destruct (title_char_facts b c) as (_ & Hc & Hi).
  rewrite Hc, Hi, IH. reflexivity.
Qed.

Lemma rstrip_title_from (b : bool) (s : string) :
  rstrip (title_from b s) = title_from b (rstrip s).
Proof.
  revert b. induction s as [|c s IH]; intros b; simpl; [reflexivity|].
  rewrite IH.
  destruct (title_char_facts b c) as (Hsp & _ & _).
  destruct (rstrip s) as [|c' r] eqn:E; simpl.
  - rewrite Hsp. destruct (is_space c); reflexivity.
  - reflexivity.
Qed.

Lemma rstrip_idem (s : string) : rstrip (rstrip s) = rstrip s.
Proof.
  induction s as [|c s IH]; simpl; [reflexivity|].
  destruct (rstrip s) as [|c' r] eqn:E.
  - destruct (is_space c) eqn:Ec; simpl; [reflexivity|]. now rewrite Ec.
  - simpl in *. now rewrite IH.
Qed.

Lemma lstrip_clean (s : string) : starts_clean (lstrip s) = true.
Proof.
  induction s as [|c s IH]; simpl; [reflexivity|].
  destruct (is_space c) eqn:E; [exact IH|]. simpl. now rewrite E.
Qed.

Lemma lstrip_of_clean (s : string) : starts_clean s = true -> lstrip s = s.
Proof.
  destruct s as [|c s]; simpl; [reflexivity|].
  now destruct (is_space c).
Qed.

Lemma rstrip_clean (s : string) :
  starts_clean s = true -> starts_clean (rstrip s) = true.
Proof.
  destruct s as [|c s]; simpl; [reflexivity|].
  intros Hc. destruct (rstrip s); [|exact Hc].
  destruct (is_space c) eqn:E; [reflexivity|]. simpl. now rewrite E.
Qed.

Lemma title_from_clean (b : bool) (s : string) :
  starts_clean (title_from b s) = starts_clean s.
Proof.
  destruct s as [|c s]; simpl; [reflexivity|].
  destruct (title_char_facts b c) as (Hsp & _ & _).
  now rewrite Hsp.
Qed.

(** Stripping and title-casing a second time changes nothing. *)
Lemma title_strip_idem (s : string) :
  title (strip (title (strip s))) = title (strip s).
Proof.
  unfold title, strip.
  rewrite (lstrip_of_clean (title_from false _)).
  - now rewrite rstrip_title_from, rstrip_idem, title_from_idem.
  - rewrite title_from_clean. apply rstrip_clean, lstrip_clean.
Qed.

(** ** The column loops of [clean_data] *)

Section Loops.
Variable body : Series -> option Series.

(** A body whose result it leaves alone. *)
Hypothesis body_idem : forall s s1, body s = Some s1 -> body s1 = Some s1.

Lemma mem_In (c : string) (l : list string) : mem c l = true <-> In c l.
Proof.
  unfold mem. rewrite existsb_exists. split.
  - intros [x [Hx E]]. apply String.eqb_eq in E. now subst.
  - intros Hc. exists c. split; [exact Hc | apply String.eqb_refl].
Qed.

Lemma for_each_col_get (cols : list string) (df df' : DataFrame) (c : string) :
  for_each_col body cols df = Some df' ->
  get_col df' c = if mem c cols then get_col df c ≫= body else get_col df c.
Proof.
  revert df. induction cols as [|col cols IH]; intros df; simpl.
  - now intros [= ->].
  - destruct (get_col df col) as [s|] eqn:Hg.
    + destruct (body s) as [s1|] eqn:Hb; simpl; [|discriminate].
      intros Hrest. rewrite (IH _ Hrest).
      destruct (String.eqb_spec c col) as [->|Hne]; simpl.
      * rewrite get_set_same, Hg. simpl. rewrite Hb.
        destruct (mem col cols); simpl; [now apply (body_idem s) | reflexivity].
      * rewrite get_set_other by congruence. reflexivity.
    + intros Hrest. rewrite (IH _ Hrest).
      destruct (String.eqb_spec c col) as [->|Hne]; simpl; [|reflexivity].
      rewrite Hg. now destruct (mem col cols).
Qed.

Lemma for_each_col_total (cols : list string) (df : DataFrame) :
  (forall c s, In c cols -> get_col df c = Some s -> is_Some (body s)) ->
  is_Some (for_each_col body cols df).
Proof.
  revert df. induction cols as [|col cols IH]; intros df Hall; simpl; [eauto|].
  destruct (get_col df col) as [s|] eqn:Hg.
  - destruct (Hall col s (or_introl eq_refl) Hg) as [s1 Hb]. rewrite Hb. simpl.
    apply IH. intros c s' Hc Hg'.
    destruct (String.eqb_spec c col) as [->|Hne].
    + rewrite get_set_same in Hg'. injection Hg' as <-. eauto.
    + rewrite get_set_other in Hg' by congruence. apply (Hall c); auto. now right.
  - apply IH. intros c s' Hc. apply Hall. now right.
Qed.

End Loops.

Lemma for_each_col_names (body : Series -> option Series) (cols : list string)
    (df df' : DataFrame) :
  for_each_col body cols df = Some df' -> column_names df' = column_names df.
Proof.
  revert df. induction cols as [|col cols IH]; intros df; simpl.
  - now intros [= ->].
  - destruct (get_col df col) as [s|] eqn:Hg; [|apply IH].
    destruct (body s) as [s1|]; simpl; [|discriminate].
    intros Hrest. rewrite (IH _ Hrest). eapply names_set_col, Hg.
Qed.


Lemma get_col_select (mask : list bool) (df : DataFrame) (c : string) :
  get_col (map (fun col => (fst col, select mask (snd col))) df) c
  = select mask <$> get_col df c.
Proof.
  induction df as [|[n s] rest IH]; simpl; [reflexivity|].
  destruct (String.eqb c n); [reflexivity | exact IH].
Qed.

Lemma get_drop_duplicates (df : DataFrame) (c : string) :
  get_col (drop_duplicates df) c = select (keep_mask df) <$> get_col df c.
Proof. apply get_col_select. Qed.

Lemma select_all (s : Series) (n : nat) :
  (length s <= n)%nat -> select (repeat true n) s = s.
Proof.
  revert n. induction s as [|c s IH]; intros [|n] Hn; simpl in *; try reflexivity;
    try lia.
  rewrite IH by lia. reflexivity.
Qed.

(** A frame without duplicate rows is left as it is. *)
Lemma drop_duplicates_nothing_to_drop (df : DataFrame) :
  rectangular df -> keep_mask df = repeat true (nrows df) -> drop_duplicates df = df.
Proof.
  intros Hrect Hmask. unfold drop_duplicates. rewrite Hmask.
  apply map_fixed. intros [n s] Hc. simpl. f_equal.
  apply select_all. unfold rectangular in Hrect.
  rewrite List.Forall_forall in Hrect. specialize (Hrect _ Hc). simpl in Hrect. lia.
Qed.

Lemma select_Forall (P : cell -> Prop) (mask : list bool) (s : Series) :
  Forall P s -> Forall P (select mask s).
Proof.
  intros Hs. revert mask. induction Hs as [|c s Hc Hs IH]; intros [|b mask]; simpl;
    try constructor.
  destruct b; [constructor|]; auto.
Qed.

(** ** The bodies of the loops *)

Section Bodies.
Context `{Collaborators}.

Lemma fillna_no_na (v : cell) (s : Series) :
  forallb (fun c => negb (isna c)) s = true -> fillna v s = s.
Proof.
  unfold fillna. induction s as [|c s IH]; simpl; [reflexivity|].
  intros Hs. apply andb_prop in Hs as [Hc Hs]. rewrite (IH Hs).
  now destruct c.
Qed.

Lemma fillna_nan (s : Series) : fillna NaN s = s.
Proof.
  unfold fillna. induction s as [|c s IH]; simpl; [reflexivity|].
  rewrite IH. now destruct c.
Qed.

Lemma fillna_filled (v : cell) (s : Series) :
  isna v = false -> forallb (fun c => negb (isna c)) (fillna v s) = true.
Proof.
  intros Hv. unfold fillna. induction s as [|c s IH]; simpl; [reflexivity|].
  rewrite IH. destruct c; simpl; now rewrite ?Hv.
Qed.

Lemma fillna_numeric (q : Q) (s : Series) :
  forallb is_numeric_cell s = true ->
  forallb is_numeric_cell (fillna (Num q) s) = true.
Proof.
  unfold fillna. induction s as [|c s IH]; simpl; [reflexivity|].
  intros Hs. apply andb_prop in Hs as [Hc Hs]. rewrite (IH Hs).
  now destruct c.
Qed.

Lemma median_numeric (s : Series) :
  forallb is_numeric_cell s = true -> exists m, median s = Some m /\ is_numeric_cell m = true.
Proof.
  intros Hs. unfold median. rewrite Hs.
  destruct (sort (nums s)); eauto.
Qed.

Lemma median_inv (s : Series) (m : cell) :
  median s = Some m -> forallb is_numeric_cell s = true /\ is_numeric_cell m = true.
Proof.
  unfold median. destruct (forallb is_numeric_cell s); [|discriminate].
  intros [= <-]. split; [reflexivity|]. now destruct (sort (nums s)).
Qed.

Lemma fill_median_idem (s s1 : Series) :
  fill_median s = Some s1 -> fill_median s1 = Some s1.
Proof.
  unfold fill_median. destruct (median s) as [m|] eqn:Hm; simpl; [|discriminate].
  intros [= <-]. destruct (median_inv s m Hm) as [Hs Hnum].
  destruct m as [|q| |]; try discriminate.
  - rewrite fillna_nan, Hm. simpl. now rewrite fillna_nan.
  - destruct (median_numeric _ (fillna_numeric q s Hs)) as [m' [Hm' _]].
    rewrite Hm'. simpl. f_equal. apply fillna_no_na. now apply fillna_filled.
Qed.

Lemma fill_unknown_idem (s s1 : Series) :
  fill_unknown s = Some s1 -> fill_unknown s1 = Some s1.
Proof.
  unfold fill_unknown. intros [= <-]. f_equal.
  apply fillna_no_na. now apply fillna_filled.
Qed.

Lemma coerce_dates_cells (s : Series) :
  Forall (fun c => exists t, c = Ts t) (fillna (Ts 0) (map to_datetime_cell s)).
Proof.
  unfold fillna. induction s as [|c s IH]; simpl; constructor; [|exact IH].
  destruct c as [|q|x|t]; simpl; eauto.
  destruct (parse_datetime x); simpl; eauto.
Qed.

Lemma coerce_dates_fixed (s : Series) :
  Forall (fun c => exists t, c = Ts t) s -> coerce_dates s = Some s.
Proof.
  unfold coerce_dates, fillna. intros Hs. f_equal.
  induction Hs as [|c s [t ->] Hs IH]; simpl; [reflexivity|]. now rewrite IH.
Qed.

Lemma coerce_dates_idem (s s1 : Series) :
  coerce_dates s = Some s1 -> coerce_dates s1 = Some s1.
Proof.
  intros Hs. apply coerce_dates_fixed.
  unfold coerce_dates in Hs. injection Hs as <-. apply coerce_dates_cells.
Qed.

Lemma existsb_is_str_map (f : string -> string) (s : Series) :
  existsb is_str (map (str_cell f) s) = existsb is_str s.
Proof.
  induction s as [|c s IH]; simpl; [reflexivity|].
  rewrite IH. now destruct c.
Qed.

Lemma str_allowed_map (f : string -> string) (s : Series) :
  str_allowed (map (str_cell f) s) = str_allowed s.
Proof.
  destruct s as [|c s]; [reflexivity|].
  apply (existsb_is_str_map f (c :: s)).
Qed.

Lemma normalize_text_spec (s : Series) :
  normalize_text s
  = if str_allowed s then Some (map (str_cell (fun x => title (strip x))) s) else None.
Proof.
  unfold normalize_text, str_map.
  destruct (str_allowed s) eqn:E; simpl; [|reflexivity].
  rewrite str_allowed_map, E, map_map. f_equal.
  apply map_ext. now intros [].
Qed.

Lemma normalize_text_idem (s s1 : Series) :
  normalize_text s = Some s1 -> normalize_text s1 = Some s1.
Proof.
  rewrite !normalize_text_spec.
  destruct (str_allowed s) eqn:E; [|discriminate].
  intros [= <-]. rewrite str_allowed_map, E, map_map. f_equal.
  apply map_ext. intros [| |x|]; simpl; try reflexivity.
  now rewrite title_strip_idem.
Qed.

Lemma Qtrunc_inject_Z (z : Z) : Qtrunc (inject_Z z) = z.
Proof. unfold Qtrunc. simpl. apply Z.quot_1_r. Qed.

Lemma coerce_int_spec (s : Series) :
  coerce_int s = Some (map (fun c => Num (inject_Z (int_of_cell c))) s).
Proof.
  unfold coerce_int, astype_int, fillna.
  induction s as [|c s IH]; simpl; [reflexivity|].
  rewrite IH. unfold int_of_cell.
  destruct c as [|q|x|t]; simpl; try reflexivity.
  destruct (parse_numeric x); reflexivity.
Qed.

Lemma coerce_int_fixed (s : Series) :
  Forall (fun c => exists z, c = Num (inject_Z z)) s -> coerce_int s = Some s.
Proof.
  rewrite coerce_int_spec. intros Hs. f_equal.
  induction Hs as [|c s [z ->] Hs IH]; simpl; [reflexivity|].
  rewrite IH. unfold int_of_cell. simpl. now rewrite Qtrunc_inject_Z.
Qed.

Lemma coerce_int_cells (s s1 : Series) :
  coerce_int s = Some s1 -> Forall (fun c => exists z, c = Num (inject_Z z)) s1.
Proof.
  rewrite coerce_int_spec. intros [= <-].
  apply List.Forall_forall. intros c Hc. apply in_map_iff in Hc as [c0 [<- _]]. eauto.
Qed.

Lemma coerce_int_idem (s s1 : Series) :
  coerce_int s = Some s1 -> coerce_int s1 = Some s1.
Proof. intros Hs. eapply coerce_int_fixed, coerce_int_cells, Hs. Qed.

End Bodies.

(** ** [clean_data], column by column *)

Section Cleaner.
Context `{Collaborators}.

Lemma clean_frame_get (df d1 : DataFrame) (spec : ColumnSpec) (c : string) :
  clean_frame df spec = Some d1 ->
  get_col d1 c = (select (keep_mask df) <$> get_col df c) ≫= clean_column spec c.
Proof.
  unfold clean_frame.
  destruct (for_each_col fill_median _ _) as [d2|] eqn:E2; simpl; [|discriminate].
  destruct (for_each_col fill_unknown _ d2) as [d3|] eqn:E3; simpl; [|discriminate].
  destruct (for_each_col coerce_dates _ d3) as [d4|] eqn:E4; simpl; [|discriminate].
  destruct (for_each_col normalize_text _ d4) as [d5|] eqn:E5; simpl; [|discriminate].
  intros E6.
  rewrite (for_each_col_get _ coerce_int_idem _ _ _ c E6).
  rewrite (for_each_col_get _ normalize_text_idem _ _ _ c E5).
  rewrite (for_each_col_get _ coerce_dates_idem _ _ _ c E4).
  rewrite (for_each_col_get _ fill_unknown_idem _ _ _ c E3).
  rewrite (for_each_col_get _ fill_median_idem _ _ _ c E2).
  rewrite get_drop_duplicates. unfold clean_column, when.
  destruct (get_col df c) as [s|]; simpl.
  - destruct (mem c (numeric_columns spec)); simpl;
      [destruct (fill_median _); simpl|];
      destruct (mem c (categorical_columns spec)); simpl;
      destruct (mem c (date_columns spec)); simpl;
      try destruct (normalize_text _); reflexivity.
  - repeat match goal with |- context [mem ?a ?b] => destruct (mem a b); simpl end;
      reflexivity.
Qed.

Lemma clean_frame_names (df d1 : DataFrame) (spec : ColumnSpec) :
  clean_frame df spec = Some d1 -> column_names d1 = column_names df.
Proof.
  unfold clean_frame.
  destruct (for_each_col fill_median _ _) as [d2|] eqn:E2; simpl; [|discriminate].
  destruct (for_each_col fill_unknown _ d2) as [d3|] eqn:E3; simpl; [|discriminate].
  destruct (for_each_col coerce_dates _ d3) as [d4|] eqn:E4; simpl; [|discriminate].
  destruct (for_each_col normalize_text _ d4) as [d5|] eqn:E5; simpl; [|discriminate].
  intros E6.
  rewrite (for_each_col_names _ _ _ _ E6), (for_each_col_names _ _ _ _ E5),
    (for_each_col_names _ _ _ _ E4), (for_each_col_names _ _ _ _ E3),
    (for_each_col_names _ _ _ _ E2).
  unfold drop_duplicates, column_names. rewrite map_map. reflexivity.
Qed.


Lemma mem_not_In (c : string) (l : list string) : ~ In c l -> mem c l = false.
Proof.
  intros Hn. destruct (mem c l) eqn:E; [|reflexivity].
  now apply mem_In in E.
Qed.

Lemma select_forallb (p : cell -> bool) (mask : list bool) (s : Series) :
  forallb p s = true -> forallb p (select mask s) = true.
Proof.
  revert mask. induction s as [|c s IH]; intros [|b mask]; simpl; auto.
  intros Hs. apply andb_prop in Hs as [Hc Hs].
  destruct b; simpl; rewrite ?Hc; simpl; auto.
Qed.

Lemma str_allowed_filled (u : string) (s : Series) :
  forallb is_text_cell s = true -> str_allowed (fillna (Str u) s) = true.
Proof.
  destruct s as [|c s]; [reflexivity|]. simpl.
  destruct c; simpl; intros; try reflexivity; discriminate.
Qed.

(** On well-typed columns no step of [clean_data] raises. *)
Lemma clean_frame_total (df : DataFrame) (spec : ColumnSpec) :
  disjoint_spec spec -> numeric_typed spec df -> text_typed spec df ->
  is_Some (clean_frame df spec).
Proof.
  intros (Hnc & Hnd & Hcd) Hnum Htxt. unfold clean_frame.
  destruct (for_each_col_total fill_median fill_median_idem
              (numeric_columns spec) (drop_duplicates df)) as [d2 E2].
  { intros c s Hc Hg. rewrite get_drop_duplicates in Hg.
    destruct (get_col df c) as [s0|] eqn:Hg0; simpl in Hg; [|discriminate].
    injection Hg as <-.
    destruct (median_numeric (select (keep_mask df) s0)) as [m [Hm _]].
    { apply select_forallb. eapply Hnum; eauto. }
    unfold fill_median. rewrite Hm. simpl. eauto. }
  rewrite E2. simpl.
  destruct (for_each_col_total fill_unknown fill_unknown_idem
              (categorical_columns spec) d2) as [d3 E3].
  { intros; unfold fill_unknown; eauto. }
  rewrite E3. simpl.
  destruct (for_each_col_total coerce_dates coerce_dates_idem
              (date_columns spec) d3) as [d4 E4].
  { intros; unfold coerce_dates; eauto. }
  rewrite E4. simpl.
  destruct (for_each_col_total normalize_text normalize_text_idem
              (categorical_columns spec) d4) as [d5 E5].
  { intros c s Hc Hg.
    rewrite (for_each_col_get _ coerce_dates_idem _ _ _ c E4) in Hg.
    rewrite (for_each_col_get _ fill_unknown_idem _ _ _ c E3) in Hg.
    rewrite (for_each_col_get _ fill_median_idem _ _ _ c E2) in Hg.
    rewrite get_drop_duplicates in Hg.
    rewrite (mem_not_In c (date_columns spec)) in Hg by auto.
    rewrite (proj2 (mem_In c (categorical_columns spec)) Hc) in Hg.
    rewrite (mem_not_In c (numeric_columns spec)) in Hg by (intros Hn; eapply Hnc; eauto).
    destruct (get_col df c) as [s0|] eqn:Hg0; simpl in Hg; [|discriminate].
    injection Hg as <-. rewrite normalize_text_spec, str_allowed_filled; [eauto|].
    apply select_forallb. eapply Htxt; eauto. }
  rewrite E5. simpl.
  apply (for_each_col_total coerce_int coerce_int_idem).
  intros c s _ _. rewrite coerce_int_spec. eauto.
Qed.

Lemma fill_median_all_missing (s : Series) :
  Forall (fun c => c = NaN) s -> fill_median s = Some s.
Proof.
  intros Hs. unfold fill_median, median.
  assert (Hn : forallb is_numeric_cell s = true /\ nums s = []).
  { induction Hs as [|c s -> Hs [IH1 IH2]]; simpl; auto. }
  destruct Hn as [-> ->]. simpl. now rewrite fillna_nan.
Qed.

(** C8. When a numeric column of the specification, not also listed as
    categorical, holds no value at all, every frame that [clean_data] returns
    has 0 in each cell of that column, one cell per row kept by the
    deduplication; and [clean_data] does return on well-typed columns. *)
Theorem all_missing_numeric_column_becomes_zero
    (df : DataFrame) (spec : ColumnSpec) (col : string) (s : Series) :
  In col (numeric_columns spec) ->
  ~ In col (categorical_columns spec) ->
  get_col df col = Some s ->
  Forall (fun c => c = NaN) s ->
  (forall d1, clean_frame df spec = Some d1 ->
     get_col d1 col = Some (map (fun _ => Num 0) (select (keep_mask df) s))) /\
  (disjoint_spec spec -> numeric_typed spec df -> text_typed spec df ->
     exists d1, clean_frame df spec = Some d1).
Proof.
  intros Hnum Hcat Hg Hs. split.
  - intros d1 Hd. rewrite (clean_frame_get _ _ _ col Hd), Hg. simpl.
    unfold clean_column.
    rewrite (proj2 (mem_In _ _) Hnum), (mem_not_In _ _ Hcat). simpl.
    set (s0 := select (keep_mask df) s).
    assert (Hs0 : Forall (fun c => c = NaN) s0) by now apply select_Forall.
    rewrite (fill_median_all_missing _ Hs0). simpl.
    destruct (mem col (date_columns spec)); simpl.
    + rewrite coerce_int_spec. f_equal.
      induction Hs0 as [|c l -> _ IH]; simpl; [reflexivity|]. now rewrite IH.
    + rewrite coerce_int_spec. f_equal.
      induction Hs0 as [|c l -> _ IH]; simpl; [reflexivity|]. now rewrite IH.
  - intros Hd Hn Ht. apply clean_frame_total; assumption.
Qed.




Lemma get_col_names (df : DataFrame) (c : string) :
  is_Some (get_col df c) <-> In c (column_names df).
Proof.
  unfold column_names. induction df as [|[n s] rest IH]; simpl.
  - split; [intros [? [=]] | intros []].
  - destruct (String.eqb_spec c n) as [->|Hne].
    + split; eauto.
    + rewrite IH. split; [now right | intros [E|Hin]; [congruence | exact Hin]].
Qed.

Lemma clean_frame_int_cells (df d1 : DataFrame) (spec : ColumnSpec) (col : string)
    (s' : Series) :
  clean_frame df spec = Some d1 -> In col (numeric_columns spec) ->
  get_col d1 col = Some s' -> Forall int_cell s'.
Proof.
  intros Hd Hc Hg'.
  rewrite (clean_frame_get _ _ _ col Hd) in Hg'.
  destruct (get_col df col) as [s|]; simpl in Hg'; [|discriminate].
  unfold clean_column in Hg'.
  rewrite (proj2 (mem_In _ _) Hc) in Hg'.
  repeat match type of Hg' with
         | context [mbind _ ?o] =>
             match o with
             | mbind _ _ => fail 1
             | _ => destruct o; simpl in Hg'; [|discriminate]
             end
         end.
  eapply coerce_int_cells, Hg'.
Qed.

(** After [clean_data] a numeric column of the specification is a column of
    numbers without a missing cell: what [handle_outliers] and [validate_data]
    expect. *)
Lemma cleaned_column_numeric (df d1 : DataFrame) (spec : ColumnSpec) (col : string)
    (s : Series) :
  clean_frame df spec = Some d1 -> In col (numeric_columns spec) ->
  get_col d1 col = Some s ->
  forallb is_numeric_cell s = true /\ forallb (fun c => negb (isna c)) s = true.
Proof.
  intros Hd Hc Hg. pose proof (clean_frame_int_cells _ _ _ _ _ Hd Hc Hg) as Hs.
  clear Hg.
  split; (induction Hs as [|c l [z ->] _ IH]; [reflexivity | simpl; exact IH]).
Qed.










End Cleaner.

(** ** The components and the store *)

Section Store.
Context `{Collaborators}.

Lemma in_place_run (f : DataFrame -> option DataFrame) (r : nat) (d : DataFrame)
    (σ : gmap nat DataFrame) :
  σ !! r = Some d ->
  in_place f r σ = (fun d' => (r, <[r := d']> σ)) <$> f d.
Proof.
  intros Hr. unfold in_place, bind, load, lift, write, ret. rewrite Hr.
  destruct (f d); reflexivity.
Qed.

Lemma alloc_fresh (σ : gmap nat DataFrame) : σ !! fresh (dom σ) = None.
Proof. apply not_elem_of_dom, is_fresh. Qed.

Lemma components_store_effect_aux (σ : gmap nat DataFrame) (r : nat) (d : DataFrame) :
  σ !! r = Some d ->
  forall spec,
    fresh (dom σ) <> r /\
    clean_data r spec σ
    = (fun d' => (fresh (dom σ), <[fresh (dom σ) := d']> σ)) <$> clean_frame d spec.
Proof.
  intros Hr spec. split.
  - intros E. pose proof (alloc_fresh σ) as Hf. rewrite E in Hf. congruence.
  - unfold clean_data, bind, load, alloc, lift, write, ret. rewrite Hr.
    destruct (clean_frame d spec); simpl; [|reflexivity].
    now rewrite insert_insert_eq.
Qed.

(** C2, as the code has it.  For a reference [r] to a frame [d]:
    [clean_data] allocates a fresh frame, writes the cleaned frame there and
    leaves [r] and every other frame as they were; [handle_outliers],
    [standardize_countries] and [validate_data] return [r] itself after
    writing their result into it, and change only that frame; the merge of
    lines 214-218 allocates its result and leaves its three arguments as they
    were.  Each result is computed from the frames read and the arguments
    alone. *)
Theorem components_store_effect (σ : gmap nat DataFrame) (r : nat) (d : DataFrame) :
  σ !! r = Some d ->
  (forall spec,
     let r' := fresh (dom σ) in
     σ !! r' = None /\ r' <> r /\
     clean_data r spec σ
     = (fun d' => (r', <[r' := d']> σ)) <$> clean_frame d spec /\
     (forall d', (<[r' := d']> σ) !! r = Some d) /\
     (forall d' other, other <> r' -> (<[r' := d']> σ) !! other = σ !! other)) /\
  (forall column,
     handle_outliers r column σ
     = (fun d' => (r, <[r := d']> σ)) <$> handle_outliers_frame d column) /\
  (forall column,
     standardize_countries r column σ
     = Some (r, <[r := standardize_frame country_mapping d column]> σ)) /\
  (forall column valid_range,
     validate_data r column valid_range σ
     = (fun d' => (r, <[r := d']> σ)) <$> validate_frame d column valid_range) /\
  (forall d' other, other <> r -> (<[r := d']> σ) !! other = σ !! other) /\
  (forall w n dw dn,
     σ !! w = Some dw -> σ !! n = Some dn ->
     let r' := fresh (dom σ) in
     merge_all r w n σ = (fun m => (r', <[r' := m]> σ)) <$> enrich d dw dn /\
     (forall m, (<[r' := m]> σ) !! r = Some d /\
                (<[r' := m]> σ) !! w = Some dw /\
                (<[r' := m]> σ) !! n = Some dn)).
Proof.
  intros Hr.
  assert (Hfresh : forall x dx, σ !! x = Some dx -> fresh (dom σ) <> x).
  { intros x dx Hx E. pose proof (alloc_fresh σ) as Hf. rewrite E in Hf. congruence. }
  split; [|split; [|split; [|split; [|split]]]].
  - intros spec r'. split; [apply alloc_fresh|]. split; [eapply Hfresh, Hr|].
    split; [|split].
    + unfold clean_data, bind, load, alloc, lift, write, ret. rewrite Hr.
      fold r'. destruct (clean_frame d spec); simpl; [|reflexivity].
      now rewrite insert_insert_eq.
    + intros d'. rewrite lookup_insert_ne; [exact Hr | eapply Hfresh, Hr].
    + intros d' other Hne. now rewrite lookup_insert_ne.
  - intros column. unfold handle_outliers. now rewrite (in_place_run _ r d).
  - intros column. unfold standardize_countries. now rewrite (in_place_run _ r d).
  - intros column valid_range. unfold validate_data. now rewrite (in_place_run _ r d).
  - intros d' other Hne. now rewrite lookup_insert_ne.
  - intros w n dw dn Hw Hn r'. split.
    + unfold merge_all, bind, load, lift, alloc. rewrite Hr, Hw, Hn.
      destruct (enrich d dw dn); reflexivity.
    + intros m. rewrite !lookup_insert_ne by (eapply Hfresh; eauto). auto.
Qed.

Lemma bind_in_place {A} (f : DataFrame -> option DataFrame) (k : nat -> M A)
    (r : nat) (d : DataFrame) (σ : gmap nat DataFrame) :
  σ !! r = Some d ->
  bind (in_place f r) k σ
  = match f d with Some d' => k r (<[r := d']> σ) | None => None end.
Proof.
  intros Hr. unfold bind at 1. rewrite (in_place_run f r d σ Hr).
  now destruct (f d).
Qed.

(** The script only hands the copy made by [clean_data] to the functions that
    assign in place: the frame read from the file is left as it was, and the
    name [logistics_df] ends bound to a fresh frame. *)
Lemma logistics_steps_run (σ : gmap nat DataFrame) (r : nat) (d : DataFrame) :
  σ !! r = Some d ->
  logistics_steps r σ
  = (fun d' => (fresh (dom σ), <[fresh (dom σ) := d']> σ)) <$> logistics_frame d.
Proof.
  intros Hr. unfold logistics_steps, logistics_frame, bind at 1.
  destruct (components_store_effect_aux σ r d Hr logistics_spec) as [_ ->].
  destruct (clean_frame d logistics_spec) as [d1|]; [|reflexivity].
  set (r' := fresh (dom σ)).
  change ((fun d' => (r', <[r' := d']> σ)) <$> Some d1)
    with (Some (r', <[r' := d1]> σ)).
  cbv beta iota. unfold handle_outliers.
  rewrite (bind_in_place _ _ r' d1) by apply lookup_insert_eq.
  change (Some d1 ≫= _)
    with (d ← handle_outliers_frame d1 "transit_time_days";
          validate_frame
            (standardize_frame country_mapping
               (standardize_frame country_mapping d "origin_country")
               "destination_country")
            "transit_time_days" (Some (0, 365)%Q)).
  destruct (handle_outliers_frame d1 "transit_time_days") as [d2|]; [|reflexivity].
  rewrite insert_insert_eq. unfold standardize_countries.
  rewrite (bind_in_place _ _ r' d2) by apply lookup_insert_eq.
  rewrite insert_insert_eq.
  rewrite (bind_in_place _ _ r' _) by apply lookup_insert_eq.
  rewrite insert_insert_eq. unfold validate_data.
  rewrite (in_place_run _ r' _) by apply lookup_insert_eq.
  change (Some d2 ≫= _)
    with (validate_frame
            (standardize_frame country_mapping
               (standardize_frame country_mapping d2 "origin_country")
               "destination_country")
            "transit_time_days" (Some (0, 365)%Q)).
  destruct (validate_frame _ _ _); [|reflexivity].
  change (Some (r', <[r' := l]> (<[r' := standardize_frame country_mapping
            (standardize_frame country_mapping d2 "origin_country")
            "destination_country"]> σ)) = Some (r', <[r' := l]> σ)).
  now rewrite insert_insert_eq.
Qed.

End Store.

(** ** The weather source *)



Section Sources.
Context `{Collaborators}.



(** ** The news source *)

Lemma Qsum_from (l : list Q) (a : Q) : (fold_left Qplus l a == a + Qsum l)%Q.
Proof.
  unfold Qsum. revert a. induction l as [|x l IH]; intros a; simpl.
  - ring.
  - rewrite (IH (a + x)%Q), (IH (0 + x)%Q). ring.
Qed.

Lemma Qsum_cons (x : Q) (l : list Q) : (Qsum (x :: l) == x + Qsum l)%Q.
Proof. unfold Qsum at 1. simpl. rewrite Qsum_from. ring. Qed.

Lemma Qsum_bounds (l : list Q) :
  Forall (fun x => (-1 <= x)%Q /\ (x <= 1)%Q) l ->
  (- inject_Z (Z.of_nat (length l)) <= Qsum l)%Q /\
  (Qsum l <= inject_Z (Z.of_nat (length l)))%Q.
Proof.
  induction 1 as [|x l [Hlo Hhi] Hl [IHlo IHhi]].
  - unfold Qsum, Qle. simpl. split; lia.
  - rewrite Qsum_cons.
    change (length (x :: l)) with (S (length l)).
    rewrite Nat2Z.inj_succ. unfold Z.succ. rewrite inject_Z_plus.
    change (inject_Z 1) with 1%Q. split; lra.
Qed.

Lemma average_bounds (l : list Q) :
  l <> [] ->
  Forall (fun x => (-1 <= x)%Q /\ (x <= 1)%Q) l ->
  (-1 <= Qsum l / inject_Z (Z.of_nat (length l)))%Q /\
  (Qsum l / inject_Z (Z.of_nat (length l)) <= 1)%Q.
Proof.
  intros Hne Hl. destruct (Qsum_bounds l Hl) as [Hlo Hhi].
  assert (Hn : (0 < inject_Z (Z.of_nat (length l)))%Q).
  { change 0%Q with (inject_Z 0). rewrite <- Zlt_Qlt.
    destruct l; [congruence | simpl; lia]. }
  split.
  - apply Qle_shift_div_l; [exact Hn | lra].
  - apply Qle_shift_div_r; [exact Hn | lra].
Qed.


End Sources.

(** ** The left join *)

Lemma positions_length (k : cell) (rk : Series) (j : nat) :
  length (positions k rk j) = length (List.filter (cell_eqb k) rk).
Proof.
  revert j. induction rk as [|c rk IH]; intros j; simpl; [reflexivity|].
  destruct (cell_eqb k c); simpl; now rewrite IH.
Qed.

Lemma positions_unique (k : cell) (rk : Series) :
  unique_keys rk ->
  positions k rk 0 = match head (positions k rk 0) with Some j => [j] | None => [] end.
Proof.
  intros Hu. specialize (Hu k). rewrite <- (positions_length k rk 0) in Hu.
  destruct (positions k rk 0) as [|j [|j' l]]; simpl in *; try reflexivity. lia.
Qed.

Lemma join_plan_unique (lk rk : Series) (i : nat) :
  unique_keys rk ->
  join_plan lk rk i
  = combine (seq i (length lk)) (map (fun k => head (positions k rk 0)) lk).
Proof.
  intros Hu. revert i. induction lk as [|k lk IH]; intros i; simpl; [reflexivity|].
  rewrite IH, (positions_unique k rk Hu).
  destruct (head (positions k rk 0)); reflexivity.
Qed.

Lemma take_left_unique (lk rk s : Series) :
  unique_keys rk -> length s = length lk ->
  take_left (join_plan lk rk 0) s = s.
Proof.
  intros Hu Hlen. rewrite (join_plan_unique lk rk 0 Hu). unfold take_left.
  rewrite <- Hlen.
  assert (Hlen' : length (map (fun k => head (positions k rk 0)) lk) = length s)
    by (rewrite length_map; congruence).
  revert Hlen'. generalize (map (fun k => head (positions k rk 0)) lk). clear.
  intros os Hos.
  assert (Hgen : forall (pre : Series),
            map (fun p => nth (fst p) (pre ++ s)%list NaN)
                (combine (seq (length pre) (length s)) os) = s).
  { revert os Hos. induction s as [|c s IH]; intros os Hos pre; [reflexivity|].
    destruct os as [|o os]; [discriminate|]. simpl.
    rewrite app_nth2, Nat.sub_diag by lia. simpl. f_equal.
    specialize (IH os ltac:(simpl in Hos; lia) (pre ++ [c])%list).
    rewrite <- app_assoc, length_app in IH. simpl in IH.
    rewrite Nat.add_1_r in IH. exact IH. }
  exact (Hgen []).
Qed.

Lemma take_right_unique (lk rk s : Series) :
  unique_keys rk -> take_right (join_plan lk rk 0) s = joined lk rk s.
Proof.
  intros Hu. rewrite (join_plan_unique lk rk 0 Hu). unfold take_right, joined.
  set (found := fun k => head (positions k rk 0)).
  change (map (fun p => match snd p with Some j => nth j s NaN | None => NaN end)
            (combine (seq 0 (length lk)) (map found lk))
          = map (fun k => match found k with Some j => nth j s NaN | None => NaN end) lk).
  generalize 0%nat. induction lk as [|k lk IH]; intros i; simpl; [reflexivity|].
  now rewrite IH.
Qed.

Lemma joined_length (lk rk s : Series) : length (joined lk rk s) = length lk.
Proof. apply length_map. Qed.




Lemma get_col_app_l (df rest : DataFrame) (c : string) (s : Series) :
  get_col df c = Some s -> get_col (df ++ rest)%list c = Some s.
Proof.
  induction df as [|[n s0] df IH]; simpl; [discriminate|].
  destruct (String.eqb c n); auto.
Qed.

Lemma column_names_app (a b : DataFrame) :
  column_names (a ++ b)%list = (column_names a ++ column_names b)%list.
Proof. apply map_app. Qed.

Lemma mem_app (n : string) (a b : list string) :
  mem n (a ++ b)%list = mem n a || mem n b.
Proof. apply existsb_app. Qed.

Lemma in_column_names (df : DataFrame) (c : string * Series) :
  In c df -> In (fst c) (column_names df).
Proof. apply in_map. Qed.







Lemma drop_columns_keeps (names : list string) (df : DataFrame) :
  (forall n, In n (column_names df) -> ~ In n names) ->
  drop_columns names df = df.
Proof.
  intros Hn. unfold drop_columns. induction df as [|c df IH]; simpl; [reflexivity|].
  rewrite (mem_not_In (fst c) names) by (apply Hn; now left). simpl.
  rewrite IH; [reflexivity|]. intros n Hin. apply Hn. now right.
Qed.





(** * Instances on the sample data *)

Lemma sample_spec_disjoint : disjoint_spec sample_spec.
Proof.
  unfold disjoint_spec, sample_spec. simpl.
  repeat split; intros c [<-|[]] [E|[]]; discriminate.
Defined.




(** [handle_outliers] is not a function to a new frame: it returns the
    reference it was given, and the frame behind that reference has changed. *)
Lemma handle_outliers_overwrites_its_argument :
  handle_outliers 0%nat "transit_time_days" (<[0%nat := sample_transit]> ∅)
    = Some (0%nat, <[0%nat := sample_transit_capped]> ∅) /\
  (<[0%nat := sample_transit]> (∅ : gmap nat DataFrame)) !! 0%nat = Some sample_transit /\
  (<[0%nat := sample_transit_capped]> (∅ : gmap nat DataFrame)) !! 0%nat
    = Some sample_transit_capped /\
  sample_transit_capped <> sample_transit.
Proof.
  split; [|split; [|split]].
  - unfold handle_outliers.
    rewrite (in_place_run _ 0%nat sample_transit) by apply lookup_insert_eq.
    assert (E : handle_outliers_frame sample_transit "transit_time_days"
                = Some sample_transit_capped) by (vm_compute; reflexivity).
    rewrite E. simpl. now rewrite insert_insert_eq.
  - apply lookup_insert_eq.
  - apply lookup_insert_eq.
  - discriminate.
Qed.

Lemma components_store_effect_sample :
  (<[0%nat := sample_transit]> (∅ : gmap nat DataFrame)) !! 0%nat = Some sample_transit /\
  handle_outliers 0%nat "transit_time_days" (<[0%nat := sample_transit]> ∅)
  = (fun d' => (0%nat, <[0%nat := d']> (<[0%nat := sample_transit]> ∅)))
      <$> handle_outliers_frame sample_transit "transit_time_days".
Proof.
  split; [apply lookup_insert_eq|].
  apply (@components_store_effect sample_collaborators
           (<[0%nat := sample_transit]> ∅) 0%nat sample_transit).
  apply lookup_insert_eq.
Defined.



Lemma sample_polarity_range (t : string) :
  (-1 <= sample_polarity t)%Q /\ (sample_polarity t <= 1)%Q.
Proof.
  unfold sample_polarity.
  destruct (String.eqb t "Strike ends Ports reopen");
    [|destruct (String.eqb t "Flood warning ")]; split; discriminate.
Defined.


Lemma all_missing_numeric_column_sample :
  exists d1, @clean_frame sample_collaborators sample_unmeasured sample_spec = Some d1 /\
             get_col d1 "transit_time_days" = Some [Num 0; Num 0].
Proof.
  destruct (@all_missing_numeric_column_becomes_zero sample_collaborators
              sample_unmeasured sample_spec "transit_time_days" [NaN; NaN])
    as [Hzero Hreturns].
  - simpl. auto.
  - simpl. intros [E|[]]. discriminate.
  - reflexivity.
  - repeat constructor.
  - destruct Hreturns as [d1 Hd1].
    + exact sample_spec_disjoint.
    + intros c s [<-|[]] E. simpl in E. injection E as <-. reflexivity.
    + intros c s [<-|[]] E. simpl in E. injection E as <-. reflexivity.
    + exists d1. split; [exact Hd1|]. exact (Hzero d1 Hd1).
Defined.

(** The example of the specification: the missing value of
    [10, 12, 11, 1000, 9, missing] receives the median 11, and the capping
    then brings 1000 down to [Q3 + 1.5 * IQR = 14]. *)
Example impute_then_cap :
  @clean_frame sample_collaborators
    [("on_time_delivery", [Num 10; Num 12; Num 11; Num 1000; Num 9; NaN])]
    {| numeric_columns := ["on_time_delivery"]; categorical_columns := [];
       date_columns := [] |}
  = Some [("on_time_delivery", [Num 10; Num 12; Num 11; Num 1000; Num 9; Num 11])] /\
  exists q,
    handle_outliers_frame
      [("on_time_delivery", [Num 10; Num 12; Num 11; Num 1000; Num 9; Num 11])]
      "on_time_delivery"
    = Some [("on_time_delivery", [Num 10; Num 12; Num 11; Num q; Num 9; Num 11])] /\
    (q == 14)%Q.
Proof.
  split; [vm_compute; reflexivity|].
  eexists. split; [vm_compute; reflexivity | reflexivity].
Qed.

(** The weather source on the sample responses: rain, snow in capitals, clear
    sky, a failed request and a response without the expected keys. *)
Example weather_examples :
  @get_weather_for_country sample_collaborators "France"
  = {| w_country := "France"; weather_condition := "Light Rain shower";
       temperature_c := JNum 12; weather_risk := 8 # 10 |} /\
  weather_risk (@get_weather_for_country sample_collaborators "Norway") = (7 # 10)%Q /\
  weather_risk (@get_weather_for_country sample_collaborators "Spain") = (2 # 10)%Q /\
  @get_weather_for_country sample_collaborators "Ruritania"
  = {| w_country := "Ruritania"; weather_condition := "Unknown";
       temperature_c := JNull; weather_risk := 5 # 10 |} /\
  @get_weather_for_country sample_collaborators "Atlantis"
  = {| w_country := "Atlantis"; weather_condition := "Unknown";
       temperature_c := JNull; weather_risk := 5 # 10 |}.
Proof. repeat split. Qed.

(** The news source on the sample responses: two articles (the second without
    a description), a description that is [null], a failed request. *)
Example news_examples :
  @get_news_sentiment_for_country sample_collaborators "France"
  = {| n_country := "France";
       news_sentiment := (0 + (1 # 2) + -1) / 2;
       news_risk := Some (1 - (((0 + (1 # 2) + -1) / 2) + 1) / 2)%Q |} /\
  @get_news_sentiment_for_country sample_collaborators "Spain"
  = {| n_country := "Spain"; news_sentiment := 0; news_risk := Some (5 # 10)%Q |} /\
  @get_news_sentiment_for_country sample_collaborators "Ruritania"
  = {| n_country := "Ruritania"; news_sentiment := 0; news_risk := Some (5 # 10)%Q |}.
Proof. repeat split. Qed.

(** * Further properties of the script *)

(** ** The shape of what [clean_data] returns *)

Section CleanerShape.
Context `{Collaborators}.

Lemma fill_median_length (s s1 : Series) :
  fill_median s = Some s1 -> length s1 = length s.
Proof.
  unfold fill_median. destruct (median s); simpl; [|discriminate].
  intros [= <-]. apply length_map.
Qed.

Lemma normalize_text_length (s s1 : Series) :
  normalize_text s = Some s1 -> length s1 = length s.
Proof.
  rewrite normalize_text_spec. destruct (str_allowed s); [|discriminate].
  intros [= <-]. apply length_map.
Qed.

Lemma coerce_int_length (s s1 : Series) :
  coerce_int s = Some s1 -> length s1 = length s.
Proof. rewrite coerce_int_spec. intros [= <-]. apply length_map. Qed.

Lemma when_length (b : bool) (body : Series -> option Series) (s s1 : Series) :
  (forall t t1, body t = Some t1 -> length t1 = length t) ->
  when b body s = Some s1 -> length s1 = length s.
Proof. intros Hb. unfold when. destruct b; [apply Hb | now intros [= <-]]. Qed.

Lemma clean_column_length (spec : ColumnSpec) (c : string) (s s1 : Series) :
  clean_column spec c s = Some s1 -> length s1 = length s.
Proof.
  unfold clean_column. intros Hc.
  destruct (when (mem c (numeric_columns spec)) fill_median s) as [a|] eqn:Ea;
    simpl in Hc; [|discriminate].
  destruct (when (mem c (categorical_columns spec)) fill_unknown a) as [b|] eqn:Eb;
    simpl in Hc; [|discriminate].
  destruct (when (mem c (date_columns spec)) coerce_dates b) as [d|] eqn:Ed;
    simpl in Hc; [|discriminate].
  destruct (when (mem c (categorical_columns spec)) normalize_text d) as [e|] eqn:Ee;
    simpl in Hc; [|discriminate].
  apply (when_length _ _ _ _ coerce_int_length) in Hc.
  apply (when_length _ _ _ _ normalize_text_length) in Ee.
  apply (when_length _ coerce_dates) in Ed;
    [|unfold coerce_dates, fillna; intros t t1 [= <-]; now rewrite !length_map].
  apply (when_length _ fill_unknown) in Eb;
    [|unfold fill_unknown, fillna; intros t t1 [= <-]; now rewrite length_map].
  apply (when_length _ _ _ _ fill_median_length) in Ea.
  congruence.
Qed.

(** X1. [clean_data] returns the columns it was given, under the same names
    and in the same order, and each of them holds exactly one cell per row
    that the deduplication keeps: the imputations and coercions add no row
    and remove none. *)
Theorem clean_data_shape (df d1 : DataFrame) (spec : ColumnSpec) :
  clean_frame df spec = Some d1 ->
  column_names d1 = column_names df /\
  (forall c s, get_col df c = Some s ->
     exists s1, get_col d1 c = Some s1 /\
                length s1 = length (select (keep_mask df) s)) /\
  (forall c, get_col df c = None -> get_col d1 c = None).
Proof.
  intros Hd. split; [eapply clean_frame_names, Hd|]. split.
  - intros c s Hg.
    assert (Hsome : is_Some (get_col d1 c)).
    { apply get_col_names. rewrite (clean_frame_names _ _ _ Hd).
      apply get_col_names. eauto. }
    destruct Hsome as [s1 Hs1]. exists s1. split; [exact Hs1|].
    rewrite (clean_frame_get _ _ _ c Hd), Hg in Hs1. simpl in Hs1.
    eapply clean_column_length, Hs1.
  - intros c Hg. rewrite (clean_frame_get _ _ _ c Hd), Hg. reflexivity.
Qed.

(** X2. A column that is in none of the three lists of the specification
    comes out of [clean_data] with the cells it had, less those of the
    duplicate rows. *)
Theorem clean_data_leaves_other_columns (df d1 : DataFrame) (spec : ColumnSpec)
    (c : string) :
  clean_frame df spec = Some d1 ->
  ~ In c (numeric_columns spec) ->
  ~ In c (categorical_columns spec) ->
  ~ In c (date_columns spec) ->
  get_col d1 c = select (keep_mask df) <$> get_col df c.
Proof.
  intros Hd Hn Hc Ht. rewrite (clean_frame_get _ _ _ c Hd).
  unfold clean_column.
  rewrite (mem_not_In _ _ Hn), (mem_not_In _ _ Hc), (mem_not_In _ _ Ht).
  now destruct (get_col df c).
Qed.



Lemma title_strip_unknown : title (strip "Unknown") = "Unknown".
Proof. reflexivity. Qed.




End CleanerShape.

(** ** [drop_duplicates] *)

Lemma select_positions (mask : list bool) (s : Series) :
  (length mask <= length s)%nat ->
  select mask s = map (fun i => nth i s NaN) (kept_positions mask 0).
Proof.
  assert (Hgen : forall (pre : Series),
            (length mask <= length s)%nat ->
            select mask s
            = map (fun i => nth i (pre ++ s)%list NaN)
                  (kept_positions mask (length pre))).
  { revert s. induction mask as [|b mask IH]; intros s pre Hlen; [reflexivity|].
    destruct s as [|c s]; [simpl in Hlen; lia|]. simpl in Hlen.
    specialize (IH s (pre ++ [c])%list ltac:(lia)).
    rewrite <- app_assoc, length_app in IH. simpl in IH. rewrite Nat.add_1_r in IH.
    simpl. destruct b; simpl; rewrite IH; [|reflexivity].
    now rewrite app_nth2, Nat.sub_diag by lia. }
  exact (Hgen []).
Qed.

Lemma pick_positions {A} (f : nat -> A) (mask : list bool) (j : nat) :
  pick mask (map f (seq j (length mask))) = map f (kept_positions mask j).
Proof.
  revert j. induction mask as [|b mask IH]; intros j; simpl; [reflexivity|].
  rewrite IH. now destruct b.
Qed.

Lemma kept_positions_bound (mask : list bool) (j i : nat) :
  In i (kept_positions mask j) -> (j <= i < j + length mask)%nat.
Proof.
  revert j. induction mask as [|b mask IH]; intros j; simpl; [intros []|].
  destruct b; simpl; [intros [<-|Hi]|intros Hi]; try lia;
    apply IH in Hi; lia.
Qed.

Lemma map_nth_seq {A} (l : list A) (d : A) :
  map (fun j => nth j l d) (seq 0 (length l)) = l.
Proof.
  assert (Hgen : forall pre : list A,
            map (fun j => nth j (pre ++ l)%list d) (seq (length pre) (length l)) = l).
  { induction l as [|x l IH]; intros pre; [reflexivity|]. simpl.
    rewrite app_nth2, Nat.sub_diag by lia. simpl. f_equal.
    specialize (IH (pre ++ [x])%list).
    rewrite <- app_assoc, length_app in IH. simpl in IH. rewrite Nat.add_1_r in IH.
    exact IH. }
  exact (Hgen []).
Qed.

Lemma keep_first_length (seen rs : list (list cell)) :
  length (keep_first seen rs) = length rs.
Proof.
  revert seen. induction rs as [|r rs IH]; intros seen; simpl; [reflexivity|].
  destruct (existsb (row_eqb r) seen); simpl; now rewrite IH.
Qed.

Lemma keep_mask_length (df : DataFrame) : length (keep_mask df) = nrows df.
Proof. unfold keep_mask, rows. now rewrite keep_first_length, length_map, length_seq. Qed.

(** The rows that a first pass keeps are all kept by a second pass. *)
Lemma keep_first_again (seen rs : list (list cell)) :
  keep_first seen (pick (keep_first seen rs) rs)
  = repeat true (length (pick (keep_first seen rs) rs)).
Proof.
  revert seen. induction rs as [|r rs IH]; intros seen; simpl; [reflexivity|].
  destruct (existsb (row_eqb r) seen) eqn:E; simpl.
  - apply IH.
  - rewrite E. simpl. f_equal. apply IH.
Qed.

Lemma rows_drop_duplicates (df : DataFrame) :
  rectangular df ->
  rows (drop_duplicates df) = pick (keep_mask df) (rows df).
Proof.
  intros Hrect. unfold rectangular in Hrect. rewrite List.Forall_forall in Hrect.
  set (mask := keep_mask df).
  assert (Hmask : length mask = nrows df) by apply keep_mask_length.
  assert (Hcols : forall c, In c df ->
            select mask (snd c) = map (fun i => nth i (snd c) NaN) (kept_positions mask 0)).
  { intros c Hc. apply select_positions. rewrite (Hrect c Hc). lia. }
  assert (Hn : nrows (drop_duplicates df) = length (kept_positions mask 0)).
  { unfold drop_duplicates. fold mask. destruct df as [|[n s] df]; simpl.
    - unfold mask, keep_mask, rows. reflexivity.
    - pose proof (Hcols (n, s) (or_introl eq_refl)) as E. simpl in E.
      rewrite E. apply length_map. }
  unfold rows at 1. rewrite Hn.
  unfold rows at 1. rewrite <- Hmask, pick_positions.
  rewrite <- (map_nth_seq (kept_positions mask 0) 0%nat) at 2.
  rewrite map_map. apply map_ext_in. intros j Hj. apply in_seq in Hj.
  unfold row, drop_duplicates. fold mask. rewrite map_map.
  apply map_ext_in. intros c Hc. simpl. rewrite (Hcols c Hc).
  rewrite (nth_indep _ NaN (nth 0 (snd c) NaN)) by (rewrite length_map; lia).
  rewrite (map_nth (fun i => nth i (snd c) NaN)). reflexivity.
Qed.

Lemma drop_duplicates_rectangular (df : DataFrame) :
  rectangular df -> rectangular (drop_duplicates df).
Proof.
  intros Hrect. unfold rectangular in *. rewrite List.Forall_forall in *.
  assert (Hmask : length (keep_mask df) = nrows df) by apply keep_mask_length.
  assert (Hlen : forall c, In c df ->
            length (select (keep_mask df) (snd c))
            = length (kept_positions (keep_mask df) 0)).
  { intros c Hc. rewrite select_positions by (rewrite (Hrect c Hc); lia).
    apply length_map. }
  intros c' Hc'. unfold drop_duplicates in Hc'.
  apply in_map_iff in Hc' as [c [<- Hc]]. simpl. rewrite (Hlen c Hc).
  destruct df as [|[n s] df]; [destruct Hc|].
  unfold drop_duplicates. simpl. symmetry. exact (Hlen (n, s) (or_introl eq_refl)).
Qed.

(** X7. On a frame with one cell per row in every column, [drop_duplicates]
    returns a frame of the same kind in which no row equals an earlier one:
    its mask of kept rows is true everywhere, and dropping duplicates a second
    time changes nothing. *)
Theorem drop_duplicates_idempotent (df : DataFrame) :
  rectangular df ->
  rectangular (drop_duplicates df) /\
  keep_mask (drop_duplicates df) = repeat true (nrows (drop_duplicates df)) /\
  drop_duplicates (drop_duplicates df) = drop_duplicates df.
Proof.
  intros Hrect.
  pose proof (drop_duplicates_rectangular df Hrect) as Hrect'.
  assert (Hmask : keep_mask (drop_duplicates df)
                  = repeat true (nrows (drop_duplicates df))).
  { unfold keep_mask at 1. rewrite (rows_drop_duplicates df Hrect).
    change (keep_mask df) with (keep_first [] (rows df)).
    rewrite keep_first_again. f_equal.
    change (keep_first [] (rows df)) with (keep_mask df).
    rewrite <- (rows_drop_duplicates df Hrect).
    unfold rows. now rewrite length_map, length_seq. }
  split; [exact Hrect'|]. split; [exact Hmask|].
  now apply drop_duplicates_nothing_to_drop.
Qed.

(** ** [handle_outliers] after [clean_data] *)

Lemma clip_value_mono (lower upper q q' : Q) :
  (q <= q')%Q -> (clip_value lower upper q <= clip_value lower upper q')%Q.
Proof.
  intros Hq. unfold clip_value.
  set (lo := if Qle_bool lower upper then lower else upper).
  set (hi := if Qle_bool lower upper then upper else lower).
  assert (Hlohi : (lo <= hi)%Q).
  { unfold lo, hi. destruct (Qle_bool lower upper) eqn:E.
    - now apply Qle_bool_iff.
    - assert (~ (lower <= upper)%Q) by (rewrite <- Qle_bool_iff; congruence). lra. }
  destruct (Qltb q lo) eqn:E1, (Qltb q' lo) eqn:E2,
           (Qltb hi q) eqn:E3, (Qltb hi q') eqn:E4;
    repeat match goal with
           | E : Qltb _ _ = true |- _ => apply Qltb_lt in E
           | E : Qltb ?a ?b = false |- _ =>
               assert (~ (a < b)%Q) by (rewrite <- Qltb_lt; congruence); clear E
           end; lra.
Qed.

Lemma clip_numeric (lower upper : Q) (s : Series) :
  forallb is_numeric_cell s = true ->
  forallb is_numeric_cell (clip lower upper s) = true.
Proof.
  unfold clip. induction s as [|c s IH]; simpl; [reflexivity|].
  intros Hs. apply andb_prop in Hs as [Hc Hs]. rewrite (IH Hs).
  now destruct c.
Qed.

Lemma clip_no_na (lower upper : Q) (s : Series) :
  forallb (fun c => negb (isna c)) s = true ->
  forallb (fun c => negb (isna c)) (clip lower upper s) = true.
Proof.
  unfold clip. induction s as [|c s IH]; simpl; [reflexivity|].
  intros Hs. apply andb_prop in Hs as [Hc Hs]. rewrite (IH Hs).
  now destruct c.
Qed.

(** What [handle_outliers] computes on a numeric column. *)
Lemma handle_outliers_frame_numeric (df : DataFrame) (column : string) (s : Series) :
  get_col df column = Some s ->
  forallb is_numeric_cell s = true ->
  exists s',
    handle_outliers_frame df column = Some (set_col df column s') /\
    length s' = length s /\
    forallb is_numeric_cell s' = true /\
    (forallb (fun c => negb (isna c)) s = true ->
     forallb (fun c => negb (isna c)) s' = true) /\
    (forall q1 q3, quantile s (1 # 4) = Some (Num q1) ->
                   quantile s (3 # 4) = Some (Num q3) ->
       s' = clip (q1 - (3 # 2) * (q3 - q1)) (q3 + (3 # 2) * (q3 - q1)) s).
Proof.
  intros Hg Hn. unfold handle_outliers_frame. rewrite Hg.
  unfold quantile. rewrite Hn. simpl.
  destruct (sort (nums s)) as [|x xs]; simpl.
  - exists s. repeat split; auto. intros q1 q3 [=].
  - eexists. split; [reflexivity|]. split; [apply length_map|].
    split; [now apply clip_numeric|]. split; [now apply clip_no_na|].
    now intros q1 q3 [= <-] [= <-].
Qed.

Section CapAfterClean.
Context `{Collaborators}.

(** X8. Whatever frame [clean_data] returns, [handle_outliers] on one of
    its numeric columns raises nothing, keeps the column names and the number
    of cells, changes no other column, and leaves a column of numbers without
    a missing cell. *)
Theorem handle_outliers_after_clean (df d1 : DataFrame) (spec : ColumnSpec)
    (column : string) (s : Series) :
  clean_frame df spec = Some d1 ->
  In column (numeric_columns spec) ->
  get_col d1 column = Some s ->
  exists d2 s',
    handle_outliers_frame d1 column = Some d2 /\
    column_names d2 = column_names d1 /\
    get_col d2 column = Some s' /\
    length s' = length s /\
    Forall (fun c => exists q, c = Num q) s' /\
    (forall other, other <> column -> get_col d2 other = get_col d1 other).
Proof.
  intros Hd Hc Hg.
  destruct (cleaned_column_numeric df d1 spec column s Hd Hc Hg) as [Hnum Hna].
  destruct (handle_outliers_frame_numeric d1 column s Hg Hnum)
    as (s' & Hrun & Hlen & Hnum' & Hna' & _).
  exists (set_col d1 column s'), s'. split; [exact Hrun|].
  split; [eapply names_set_col, Hg|]. split; [apply get_set_same|].
  split; [exact Hlen|]. split.
  - specialize (Hna' Hna). apply List.Forall_forall. intros c Hin.
    rewrite forallb_forall in Hnum', Hna'.
    specialize (Hnum' c Hin). specialize (Hna' c Hin).
    destruct c; try discriminate. eauto.
  - intros other Hne. now apply get_set_other.
Qed.

End CapAfterClean.

(** X9. On a numeric column with quartiles [Q1] and [Q3], the bounds of
    [handle_outliers] enclose the quartiles, so a number lying between [Q1]
    and [Q3] is never changed; and the capping keeps the order of the numbers:
    of two cells, the one that held the smaller number holds the smaller
    number afterwards. *)
Theorem handle_outliers_keeps_order (df : DataFrame) (column : string) (s : Series)
    (q1 q3 : Q) :
  get_col df column = Some s ->
  forallb is_numeric_cell s = true ->
  quantile s (1 # 4) = Some (Num q1) ->
  quantile s (3 # 4) = Some (Num q3) ->
  exists s',
    handle_outliers_frame df column = Some (set_col df column s') /\
    (q1 - (3 # 2) * (q3 - q1) <= q1)%Q /\ (q3 <= q3 + (3 # 2) * (q3 - q1))%Q /\
    (forall i q, s !! i = Some (Num q) -> (q1 <= q)%Q /\ (q <= q3)%Q ->
       s' !! i = Some (Num q)) /\
    (forall i j a b, s !! i = Some (Num a) -> s !! j = Some (Num b) -> (a <= b)%Q ->
       exists a' b', s' !! i = Some (Num a') /\ s' !! j = Some (Num b') /\ (a' <= b')%Q).
Proof.
  intros Hg Hn H1 H3.
  destruct (handle_outliers_frame_numeric df column s Hg Hn)
    as (s' & Hrun & _ & _ & _ & Hclip).
  specialize (Hclip q1 q3 H1 H3). subst s'.
  assert (Hq : (q1 <= q3)%Q).
  { revert H1 H3. unfold quantile. rewrite Hn.
    destruct (sort (nums s)) as [|x xs] eqn:E; [discriminate|].
    intros [= <-] [= <-].
    apply quantile_sorted_mono; try lra; [|discriminate].
    rewrite <- E. apply sort_sorted. }
  eexists. split; [exact Hrun|].
  split; [lra|]. split; [lra|]. split.
  - intros i q Hi [Hlo Hhi]. unfold clip. rewrite lookup_map, Hi. simpl.
    f_equal. f_equal.
    apply (clip_value_spec (q1 - (3 # 2) * (q3 - q1)) (q3 + (3 # 2) * (q3 - q1)) q);
      [lra | split; lra].
  - intros i j a b Hi Hj Hab. unfold clip. rewrite !lookup_map, Hi, Hj. simpl.
    eexists _, _. split; [reflexivity|]. split; [reflexivity|].
    now apply clip_value_mono.
Qed.

(** ** [validate_data] and [standardize_countries] once more *)

Lemma set_set_same (df : DataFrame) (col : string) (s t : Series) :
  set_col (set_col df col s) col t = set_col df col t.
Proof.
  induction df as [|[n old] rest IH]; simpl.
  - now rewrite String.eqb_refl.
  - destruct (String.eqb col n) eqn:E; simpl; rewrite E; [reflexivity|].
    now rewrite IH.
Qed.

(** The cell that line 122 leaves in a numeric column. *)
Lemma validate_frame_numeric (df : DataFrame) (column : string) (lo hi : Q)
    (s : Series) :
  get_col df column = Some s ->
  forallb is_numeric_cell s = true ->
  validate_frame df column (Some (lo, hi))
  = Some (set_col df column
            (map (fun c => match c with
                           | Num q => if Qle_bool lo q && Qle_bool q hi then c else Num lo
                           | _ => Num lo
                           end) s)).
Proof.
  intros Hg Hn. simpl. rewrite Hg, (mapM_validate_spec lo hi s Hn). reflexivity.
Qed.

(** X10. [validate_data] is idempotent on a numeric column: whatever the two
    bounds, validating a second time the frame that a first validation
    returned returns that same frame. *)
Theorem validate_data_idempotent (df d1 : DataFrame) (column : string) (lo hi : Q)
    (s : Series) :
  get_col df column = Some s ->
  forallb is_numeric_cell s = true ->
  validate_frame df column (Some (lo, hi)) = Some d1 ->
  validate_frame d1 column (Some (lo, hi)) = Some d1.
Proof.
  intros Hg Hn. rewrite (validate_frame_numeric df column lo hi s Hg Hn).
  intros [= <-].
  set (v := fun c => match c with
                     | Num q => if Qle_bool lo q && Qle_bool q hi then c else Num lo
                     | _ => Num lo
                     end).
  assert (Hn' : forallb is_numeric_cell (map v s) = true).
  { clear. induction s as [|c s IH]; simpl; [reflexivity|]. rewrite IH.
    destruct c as [|q| |]; simpl; try reflexivity.
    now destruct (Qle_bool lo q && Qle_bool q hi). }
  rewrite (validate_frame_numeric _ column lo hi (map v s) (get_set_same _ _ _) Hn').
  fold v. rewrite set_set_same, map_map. f_equal. f_equal.
  apply map_ext. intros c. unfold v.
  destruct c as [|q| |]; simpl;
    try (destruct (Qle_bool lo lo && Qle_bool lo hi); reflexivity).
  destruct (Qle_bool lo q && Qle_bool q hi) eqn:E; simpl.
  - now rewrite E.
  - destruct (Qle_bool lo lo && Qle_bool lo hi); reflexivity.
Qed.

Lemma set_set_other (df : DataFrame) (a b : string) (x y : Series) :
  a <> b -> is_Some (get_col df a) -> is_Some (get_col df b) ->
  set_col (set_col df a x) b y = set_col (set_col df b y) a x.
Proof.
  intros Hab. induction df as [|[n old] rest IH]; simpl.
  - intros [? [=]].
  - destruct (String.eqb_spec a n) as [->|Han], (String.eqb_spec b n) as [->|Hbn];
      simpl; try congruence.
    + intros _ _. destruct (String.eqb_spec b n); [congruence|].
      rewrite String.eqb_refl. reflexivity.
    + intros _ _. destruct (String.eqb_spec a n); [congruence|].
      rewrite String.eqb_refl. reflexivity.
    + intros Ha Hb. destruct (String.eqb_spec a n); [congruence|].
      destruct (String.eqb_spec b n); [congruence|]. now rewrite IH.
Qed.

Lemma standardize_frame_names (mapping : gmap string string) (df : DataFrame)
    (column : string) :
  column_names (standardize_frame mapping df column) = column_names df.
Proof.
  unfold standardize_frame. destruct (get_col df column) eqn:E; [|reflexivity].
  eapply names_set_col, E.
Qed.

(** X11. The two calls of lines 112-113 do not depend on their order:
    standardising column [a] then column [b] gives the same frame as [b] then
    [a].  A call keeps the column names, and afterwards no cell of the column
    is a key of the country mapping: ["Usa"], ["Uk"] and ["Uae"] are gone. *)
Theorem standardize_countries_twice (df : DataFrame) (a b : string) :
  standardize_frame country_mapping (standardize_frame country_mapping df a) b
  = standardize_frame country_mapping (standardize_frame country_mapping df b) a /\
  column_names (standardize_frame country_mapping df a) = column_names df /\
  (forall s, get_col (standardize_frame country_mapping df a) a = Some s ->
     Forall (fun c => c <> Str "Usa" /\ c <> Str "Uk" /\ c <> Str "Uae") s).
Proof.
  split; [|split].
  - destruct (String.eqb_spec a b) as [->|Hab]; [reflexivity|].
    assert (Hba : b <> a) by congruence.
    destruct (get_col df a) as [sa|] eqn:Ea, (get_col df b) as [sb|] eqn:Eb;
      unfold standardize_frame;
      rewrite ?Ea, ?Eb, ?(get_set_other df a b _ Hab), ?(get_set_other df b a _ Hba),
        ?Ea, ?Eb; try reflexivity.
    apply set_set_other; eauto.
  - apply standardize_frame_names.
  - intros s. unfold standardize_frame.
    destruct (get_col df a) as [sa|] eqn:Ea.
    + rewrite get_set_same. intros [= <-].
      apply List.Forall_forall. intros c Hc. unfold replace in Hc.
      apply in_map_iff in Hc as [c0 [<- _]].
      destruct c0 as [| |x|]; simpl; try (repeat split; discriminate).
      destruct (country_mapping !! x) as [v|] eqn:Ex.
      * pose proof (country_mapping_values_not_keys x v Ex) as Hv.
        repeat split; intros [= ->]; vm_compute in Hv; discriminate.
      * repeat split; intros [= ->]; vm_compute in Ex; discriminate.
    + rewrite Ea. discriminate.
Qed.

(** ** The left join, with or without unique keys *)





(** ** Keys, [unique] and the frames of records *)

Lemma cell_eqb_refl (c : cell) : cell_eqb c c = true.
Proof.
  destruct c; simpl; auto using String.eqb_refl, Z.eqb_refl.
  apply Qeq_bool_iff. reflexivity.
Qed.

Lemma cell_eqb_sym (a b : cell) : cell_eqb a b = cell_eqb b a.
Proof.
  destruct a, b; simpl; auto using String.eqb_sym, Z.eqb_sym.
  destruct (Qeq_bool q q0) eqn:E1, (Qeq_bool q0 q) eqn:E2; try reflexivity.
  - apply Qeq_bool_iff in E1. symmetry in E1. apply Qeq_bool_iff in E1. congruence.
  - apply Qeq_bool_iff in E2. symmetry in E2. apply Qeq_bool_iff in E2. congruence.
Qed.

Lemma cell_eqb_trans (a b c : cell) :
  cell_eqb a b = true -> cell_eqb b c = true -> cell_eqb a c = true.
Proof.
  destruct a, b, c; simpl; try discriminate; auto.
  - rewrite !Qeq_bool_iff. intros E1 E2. now rewrite E1.
  - rewrite !String.eqb_eq. congruence.
  - rewrite !Z.eqb_eq. congruence.
Qed.

Lemma filter_none (k : cell) (s : Series) :
  existsb (cell_eqb k) s = false -> List.filter (cell_eqb k) s = [].
Proof.
  induction s as [|c s IH]; simpl; [reflexivity|].
  destruct (cell_eqb k c); simpl; [discriminate | exact IH].
Qed.

Lemma existsb_cell_eqb_trans (k c : cell) (seen : Series) :
  cell_eqb k c = true -> existsb (cell_eqb c) seen = existsb (cell_eqb k) seen.
Proof.
  intros Hk. induction seen as [|x seen IH]; simpl; [reflexivity|].
  rewrite IH. f_equal.
  destruct (cell_eqb c x) eqn:E1, (cell_eqb k x) eqn:E2; try reflexivity.
  - rewrite (cell_eqb_trans k c x Hk E1) in E2. discriminate.
  - rewrite cell_eqb_sym in Hk. rewrite (cell_eqb_trans c k x Hk E2) in E1. discriminate.
Qed.

(** A value already seen does not come out again. *)
Lemma unique_from_seen (k : cell) (seen s : Series) :
  existsb (cell_eqb k) seen = true ->
  existsb (cell_eqb k) (unique_from seen s) = false.
Proof.
  revert seen. induction s as [|c s IH]; intros seen Hk; simpl; [reflexivity|].
  destruct (existsb (cell_eqb c) seen) eqn:E; [now apply IH|].
  simpl. destruct (cell_eqb k c) eqn:Ekc.
  - rewrite (existsb_cell_eqb_trans k c seen Ekc) in E. congruence.
  - simpl. apply IH. simpl. now rewrite Hk, orb_true_r.
Qed.

Lemma unique_from_keys (seen s : Series) : unique_keys (unique_from seen s).
Proof.
  revert seen. induction s as [|c s IH]; intros seen k; simpl; [lia|].
  destruct (existsb (cell_eqb c) seen) eqn:E; [apply IH|].
  simpl. destruct (cell_eqb k c) eqn:Ekc; [|apply IH].
  simpl. rewrite filter_none; [simpl; lia|].
  apply unique_from_seen. simpl. now rewrite Ekc.
Qed.

Lemma unique_keys_unique (s : Series) : unique_keys (unique s).
Proof. apply unique_from_keys. Qed.

(** Every value of the column is among its unique values, or was seen. *)
Lemma unique_from_covers (k : cell) (seen s : Series) :
  existsb (cell_eqb k) s = true ->
  existsb (cell_eqb k) seen || existsb (cell_eqb k) (unique_from seen s) = true.
Proof.
  revert seen. induction s as [|c s IH]; intros seen; simpl; [discriminate|].
  destruct (cell_eqb k c) eqn:Ekc; simpl.
  - intros _. destruct (existsb (cell_eqb c) seen) eqn:E.
    + now rewrite <- (existsb_cell_eqb_trans k c seen Ekc), E.
    + simpl. now rewrite Ekc, orb_true_r.
  - intros Hs. destruct (existsb (cell_eqb c) seen) eqn:E; [now apply IH|].
    specialize (IH (c :: seen) Hs). simpl in *. rewrite Ekc in IH.
    now rewrite Ekc.
Qed.

Lemma unique_covers_text (names countries : list string) (n : string) :
  unique (map Str names) = map Str countries -> In n names -> In n countries.
Proof.
  intros Hu Hn.
  assert (Hin : existsb (cell_eqb (Str n)) (map Str names) = true).
  { apply existsb_exists. exists (Str n). split; [now apply in_map|].
    apply cell_eqb_refl. }
  pose proof (unique_from_covers (Str n) [] (map Str names) Hin) as Hc.
  simpl in Hc. fold (unique (map Str names)) in Hc. rewrite Hu in Hc.
  apply existsb_exists in Hc as [c [Hc E]].
  apply in_map_iff in Hc as [m [<- Hm]]. simpl in E.
  apply String.eqb_eq in E. now subst.
Qed.

Lemma unique_nonempty (s : Series) : s <> [] -> unique s <> [].
Proof. destruct s as [|c s]; [congruence|]. discriminate. Qed.

(** The first row of a text key column that holds [n]. *)
Lemma positions_text (n : string) (countries : list string) (j0 : nat) :
  In n countries ->
  exists j, head (positions (Str n) (map Str countries) j0) = Some (j0 + j)%nat /\
            nth_error countries j = Some n.
Proof.
  revert j0. induction countries as [|c cs IH]; intros j0; [intros []|].
  simpl. destruct (String.eqb_spec n c) as [->|Hne].
  - intros _. exists 0%nat. simpl. split; [f_equal; lia | reflexivity].
  - intros [E|Hin]; [congruence|].
    destruct (IH (S j0) Hin) as (j & Hj & Hn).
    exists (S j). split; [rewrite Hj; f_equal; lia | exact Hn].
Qed.

Lemma joined_text (names countries : list string) (F : string -> cell) :
  (forall n, In n names -> In n countries) ->
  joined (map Str names) (map Str countries) (map F countries) = map F names.
Proof.
  intros Hcov. unfold joined. rewrite map_map.
  apply map_ext_in. intros n Hn.
  destruct (positions_text n countries 0 (Hcov n Hn)) as (j & Hj & Hnth).
  rewrite Hj. simpl.
  apply (map_nth_error F) in Hnth. now apply nth_error_nth.
Qed.

(** ** Lines 197-218 together *)

(** The two merges and the drop, on a base frame whose column names meet none
    of the enrichment frames. *)
Lemma enrich_structure (base weather news : DataFrame) (lk wk nk : Series) :
  get_col base "origin_country" = Some lk ->
  get_col weather "country" = Some wk -> unique_keys wk ->
  get_col news "country" = Some nk -> unique_keys nk ->
  Forall (fun c => length (snd c) = length lk) base ->
  (forall n, In n (column_names base) ->
     ~ In n (column_names weather) /\ ~ In n (column_names news) /\
     ~ In n ["country_x"; "country_y"]) ->
  enrich base weather news
  = Some (base ++ drop_columns ["country_x"; "country_y"]
                    (enrichment_columns base weather news lk wk nk))%list.
Proof.
  intros Hlk Hwk Hwu Hnk Hnu Hrect Hnames.
  assert (Hbase_w : forall n s, In (n, s) base -> mem n (column_names weather) = false).
  { intros n s Hc. apply mem_not_In. apply Hnames, (in_column_names base (n, s)), Hc. }
  assert (Hbase_n : forall n s, In (n, s) base -> mem n (column_names news) = false).
  { intros n s Hc. apply mem_not_In. apply Hnames, (in_column_names base (n, s)), Hc. }
  assert (Hw_base : forall n s, In (n, s) weather -> mem n (column_names base) = false).
  { intros n s Hc. apply mem_not_In. intros Hin.
    apply Hnames in Hin as (Hw & _). apply Hw, (in_column_names weather (n, s)), Hc. }
  rewrite List.Forall_forall in Hrect.
  set (m1 := (base ++ map (fun c => (fst c, joined lk wk (snd c))) weather)%list).
  assert (Hmerged1 : merge_left base weather "origin_country" "country" = Some m1).
  { unfold merge_left. rewrite Hlk, Hwk. simpl. unfold m1. f_equal. f_equal.
    - apply map_fixed. intros [n s] Hc. simpl.
      rewrite (Hbase_w n s Hc), andb_false_r. simpl. f_equal.
      apply take_left_unique; [exact Hwu | exact (Hrect _ Hc)].
    - apply map_ext_in. intros [n s] Hc. simpl.
      rewrite (Hw_base n s Hc). simpl. f_equal. now apply take_right_unique. }
  assert (Hnames1 : column_names m1 = (column_names base ++ column_names weather)%list).
  { unfold m1. rewrite column_names_app. f_equal. unfold column_names.
    now rewrite map_map. }
  assert (Hmerged2 :
    merge_left m1 news "origin_country" "country"
    = Some (base ++ enrichment_columns base weather news lk wk nk)%list).
  { unfold merge_left. rewrite Hnames1. subst m1.
    rewrite (get_col_app_l _ _ _ _ Hlk), Hnk. simpl. f_equal.
    rewrite map_app, map_map. unfold enrichment_columns.
    rewrite <- app_assoc. f_equal; [|f_equal].
    - apply map_fixed. intros [n s] Hc. simpl.
      rewrite (Hbase_n n s Hc), andb_false_r. f_equal.
      apply take_left_unique; [exact Hnu | exact (Hrect _ Hc)].
    - apply map_ext_in. intros [n s] Hc. simpl. rewrite mem_app.
      rewrite (proj2 (mem_In n (column_names weather)))
        by (apply (in_column_names weather (n, s)), Hc).
      rewrite orb_true_r. simpl. f_equal.
      apply take_left_unique; [exact Hnu | apply joined_length].
    - apply map_ext_in. intros [n s] Hc. simpl.
      rewrite (proj2 (mem_In n (column_names news)))
        by (apply (in_column_names news (n, s)), Hc).
      rewrite andb_true_r. f_equal. now apply take_right_unique. }
  unfold enrich. rewrite Hmerged1. simpl. rewrite Hmerged2. simpl. f_equal.
  unfold drop_columns. rewrite List.filter_app. f_equal.
  apply (drop_columns_keeps ["country_x"; "country_y"] base).
  intros n Hn. now apply Hnames.
Qed.

Section Realtime.
Context `{Collaborators}.

Lemma weather_country_echo (country : string) :
  w_country (get_weather_for_country country) = country.
Proof.
  unfold get_weather_for_country, weather_try.
  destruct (weather_api country) as [data|]; simpl; [|reflexivity].
  destruct (subscript data "current") as [current|]; simpl; [|reflexivity].
  destruct (subscript current "condition") as [condition|]; simpl; [|reflexivity].
  destruct (subscript condition "text") as [t|]; simpl; [|reflexivity].
  destruct (subscript current "temp_c"); simpl; [|reflexivity].
  destruct (as_str t); reflexivity.
Qed.

Lemma news_country_echo (country : string) :
  n_country (get_news_sentiment_for_country country) = country.
Proof.
  unfold get_news_sentiment_for_country, news_try.
  destruct (news_api country) as [data|]; simpl; [|reflexivity].
  destruct data as [| | | | |fields]; simpl; try reflexivity.
  destruct (falsy _); simpl; [reflexivity|].
  destruct (default (JArr []) (assoc "articles" fields)); simpl; try reflexivity.
  destruct (mapM article_text items); reflexivity.
Qed.

Lemma unique_keys_text_NoDup (countries : list string) :
  unique_keys (map Str countries) -> List.NoDup countries.
Proof.
  induction countries as [|c cs IH]; intros Hu; [constructor|].
  constructor.
  - intros Hin. specialize (Hu (Str c)). simpl in Hu.
    rewrite String.eqb_refl in Hu. simpl in Hu.
    assert (Hpos : (0 < length (List.filter (cell_eqb (Str c)) (map Str cs)))%nat).
    { clear -Hin. induction cs as [|x cs IH]; [destruct Hin|]. simpl.
      destruct (String.eqb_spec c x); simpl; [lia|].
      destruct Hin; [congruence | auto]. }
    lia.
  - apply IH. intros k. specialize (Hu k). simpl in Hu.
    destruct (cell_eqb k (Str c)); simpl in Hu; lia.
Qed.

(** X13. The loop of lines 202-206 runs over the countries that
    [unique()] gives for a text key column: each country of the column is
    among them and none is there twice, so every country is fetched, and
    fetched once, from each source; the records come back in that order, each
    under the name of its country. *)
Theorem each_country_fetched_once (names countries : list string) :
  unique (map Str names) = map Str countries ->
  List.NoDup countries /\
  (forall n, In n names <-> In n countries) /\
  length (weather_data countries) = length countries /\
  length (news_data countries) = length countries /\
  map w_country (weather_data countries) = countries /\
  map n_country (news_data countries) = countries.
Proof.
  intros Hu. split; [|split; [|split; [|split; [|split]]]].
  - apply unique_keys_text_NoDup. rewrite <- Hu. apply unique_keys_unique.
  - intros n. split; [now apply unique_covers_text|].
    intros Hn.
    assert (Hin : In (Str n) (unique (map Str names))) by (rewrite Hu; now apply in_map).
    clear -Hin. unfold unique in Hin. revert Hin. generalize (@nil cell).
    induction names as [|m names IH]; intros seen; simpl; [intros []|].
    destruct (existsb (cell_eqb (Str m)) seen).
    + intros Hin. right. eapply IH, Hin.
    + intros [[= ->]|Hin]; [now left | right; eapply IH, Hin].
  - apply length_map.
  - apply length_map.
  - unfold weather_data. rewrite map_map.
    rewrite <- (map_id countries) at 2. apply map_ext. apply weather_country_echo.
  - unfold news_data. rewrite map_map.
    rewrite <- (map_id countries) at 2. apply map_ext. apply news_country_echo.
Qed.


Lemma weather_frame_columns (json_cell : json -> cell) (countries : list string) :
  countries <> [] ->
  weather_frame json_cell (weather_data countries)
  = [("country", map Str countries);
     ("weather_condition",
      map (fun n => Str (weather_condition (get_weather_for_country n))) countries);
     ("temperature_c",
      map (fun n => json_cell (temperature_c (get_weather_for_country n))) countries);
     ("weather_risk",
      map (fun n => Num (weather_risk (get_weather_for_country n))) countries)].
Proof.
  intros Hne. unfold weather_frame, weather_data.
  destruct (map get_weather_for_country countries) eqn:E.
  - destruct countries; [congruence | discriminate].
  - rewrite <- E, !map_map.
    rewrite (map_ext (fun n => Str (w_country (get_weather_for_country n))) Str)
      by (intros x; now rewrite weather_country_echo).
    reflexivity.
Qed.

Lemma news_frame_columns (countries : list string) :
  countries <> [] ->
  news_frame (news_data countries)
  = ([("country", map Str countries);
      ("news_sentiment",
       map (fun n => Num (news_sentiment (get_news_sentiment_for_country n))) countries)]
     ++ (if existsb has_risk (news_data countries)
         then [("news_risk",
                map (fun n => risk_cell (get_news_sentiment_for_country n)) countries)]
         else []))%list.
Proof.
  intros Hne. unfold news_frame.
  destruct (news_data countries) eqn:E.
  - destruct countries; [congruence | discriminate].
  - rewrite <- E. unfold news_data. rewrite !map_map.
    rewrite (map_ext (fun n => Str (n_country (get_news_sentiment_for_country n))) Str)
      by (intros x; now rewrite news_country_echo).
    reflexivity.
Qed.

(** X14. Let the key column [origin_country] of the base frame hold the
    texts [names], at least one, and let the base frame have one cell per row
    in every column and none of the column names that lines 208-218 use.
    With the frames built from the records of the unique countries, lines
    214-218 return the base frame followed by the weather condition,
    temperature, weather risk and news sentiment of the country of each row,
    and by the news risk when a record has one (missing in the rows of the
    countries without articles): every row receives the record of its own
    country, none is left without a match, and no key column is added. *)
Theorem merge_realtime_enriches_each_row (json_cell : json -> cell)
    (base : DataFrame) (names countries : list string) :
  get_col base "origin_country" = Some (map Str names) ->
  unique (map Str names) = map Str countries ->
  names <> [] ->
  Forall (fun c => length (snd c) = length names) base ->
  (forall n, In n (column_names base) -> ~ In n realtime_names) ->
  merge_realtime json_cell base countries
  = Some (base
          ++ [("weather_condition",
               map (fun n => Str (weather_condition (get_weather_for_country n))) names);
              ("temperature_c",
               map (fun n => json_cell (temperature_c (get_weather_for_country n))) names);
              ("weather_risk",
               map (fun n => Num (weather_risk (get_weather_for_country n))) names);
              ("news_sentiment",
               map (fun n => Num (news_sentiment (get_news_sentiment_for_country n)))
                   names)]
          ++ (if existsb has_risk (news_data countries)
              then [("news_risk",
                     map (fun n => risk_cell (get_news_sentiment_for_country n)) names)]
              else []))%list.
Proof.
  intros Hlk Hu Hne Hrect Hnames.
  assert (Hc : countries <> []).
  { intros ->. apply (unique_nonempty (map Str names)).
    - destruct names; [congruence | discriminate].
    - exact Hu. }
  assert (Hcov : forall n, In n names -> In n countries)
    by (intros n; now apply unique_covers_text).
  assert (Huk : unique_keys (map Str countries))
    by (rewrite <- Hu; apply unique_keys_unique).
  assert (Hb : forall n, In n realtime_names -> mem n (column_names base) = false).
  { intros n Hn. apply mem_not_In. intros Hin. now apply (Hnames n Hin). }
  unfold merge_realtime.
  rewrite (weather_frame_columns json_cell countries Hc), (news_frame_columns countries Hc).
  set (risky := existsb has_risk (news_data countries)).
  rewrite (enrich_structure base _ _ (map Str names) (map Str countries) (map Str countries)).
  - f_equal. f_equal. unfold enrichment_columns, column_names in *.
    assert (Hbc : mem "country" (map fst base) = false)
      by (apply Hb; unfold realtime_names; simpl; tauto).
    assert (Hbs : mem "news_sentiment" (map fst base) = false)
      by (apply Hb; unfold realtime_names; simpl; tauto).
    assert (Hbr : mem "news_risk" (map fst base) = false)
      by (apply Hb; unfold realtime_names; simpl; tauto).
    destruct risky; cbn [map app fst snd]; rewrite !mem_app, ?Hbc, ?Hbs, ?Hbr;
      simpl; rewrite !(joined_text names countries _ Hcov); reflexivity.
  - exact Hlk.
  - reflexivity.
  - exact Huk.
  - reflexivity.
  - exact Huk.
  - rewrite length_map. exact Hrect.
  - intros n Hn. specialize (Hnames n Hn). unfold realtime_names in Hnames.
    destruct risky; simpl in *; repeat split; intros Hin; apply Hnames; tauto.
Qed.

(** X15. On a base frame without rows nothing is fetched, line 208 builds a
    frame without columns, and the first merge of line 214 raises for want of
    the key column [country]: the script does not get past line 214. *)
Theorem merge_realtime_raises_without_rows (json_cell : json -> cell)
    (base : DataFrame) :
  get_col base "origin_country" = Some [] ->
  unique [] = [] /\
  weather_data [] = [] /\
  weather_frame json_cell (weather_data []) = [] /\
  merge_left base (weather_frame json_cell (weather_data [])) "origin_country" "country"
    = None /\
  merge_realtime json_cell base [] = None.
Proof.
  intros Hg. repeat split.
  - unfold merge_left. rewrite Hg. reflexivity.
  - unfold merge_realtime, enrich, merge_left. rewrite Hg. reflexivity.
Qed.

End Realtime.

(** ** The chain of lines 101-126 *)




Section Chain.
Context `{Collaborators}.


End Chain.

(** ** The two chains of lines 95-126 on the store *)

Section Chains.
Context `{Collaborators}.

Local Ltac raised :=
  cbn [mbind option_bind];
  split; [split; [intros _; (left; reflexivity) || (right; reflexivity)
                 | reflexivity]
         | discriminate].

Lemma bind_clean_data {A} (k : nat -> M A) (σ : gmap nat DataFrame) (r : nat)
    (d : DataFrame) (spec : ColumnSpec) :
  σ !! r = Some d ->
  bind (clean_data r spec) k σ
  = match clean_frame d spec with
    | Some d' => k (fresh (dom σ)) (<[fresh (dom σ) := d']> σ)
    | None => None
    end.
Proof.
  intros Hr. unfold bind at 1.
  destruct (components_store_effect_aux σ r d Hr spec) as [_ ->].
  now destruct (clean_frame d spec).
Qed.

(** X17. Lines 95-126 on the store of frames. Let the names [supplier_df]
    and [logistics_df] be bound to two different frame objects. Each of the
    two calls of [clean_data] creates one new object, the copy of line 21,
    and every later call assigns into the copy of its own frame: afterwards
    the two names are bound to two new, different objects that hold the
    results of the two chains of steps, the two objects read from the files
    hold what they held, and no other object of the store has changed. The
    script raises exactly when one of the two chains raises on its frame. *)
Theorem cleaning_script_on_store (σ : gmap nat DataFrame) (rs rl : nat)
    (ds dl : DataFrame) :
  rs <> rl -> σ !! rs = Some ds -> σ !! rl = Some dl ->
  (cleaning_script rs rl σ = None
   <-> supplier_frame ds = None \/ logistics_frame dl = None) /\
  forall rs' rl' σ', cleaning_script rs rl σ = Some ((rs', rl'), σ') ->
    rs' <> rl' /\ σ !! rs' = None /\ σ !! rl' = None /\
    σ' !! rs = Some ds /\ σ' !! rl = Some dl /\
    σ' !! rs' = supplier_frame ds /\ σ' !! rl' = logistics_frame dl /\
    forall k, k <> rs' -> k <> rl' -> σ' !! k = σ !! k.
Proof.
  intros Hne Hs Hl.
  set (r1 := fresh (dom σ)).
  pose proof (alloc_fresh σ) as Hf1. fold r1 in Hf1.
  assert (Hs1 : r1 <> rs) by congruence.
  assert (Hl1 : r1 <> rl) by congruence.
  unfold cleaning_script, supplier_frame, logistics_frame.
  rewrite (bind_clean_data _ σ rs ds _ Hs). fold r1.
  destruct (clean_frame ds supplier_spec) as [d1s|];
    [|raised].
  set (σ1 := <[r1 := d1s]> σ).
  assert (Hl' : σ1 !! rl = Some dl) by (unfold σ1; now rewrite lookup_insert_ne).
  rewrite (bind_clean_data _ σ1 rl dl _ Hl').
  set (r2 := fresh (dom σ1)).
  pose proof (alloc_fresh σ1) as Hf2. fold r2 in Hf2.
  assert (H12 : r1 <> r2).
  { intros E. rewrite <- E in Hf2. unfold σ1 in Hf2.
    rewrite lookup_insert_eq in Hf2. discriminate. }
  assert (Hf2' : σ !! r2 = None).
  { unfold σ1 in Hf2. now rewrite lookup_insert_ne in Hf2. }
  assert (Hs2 : r2 <> rs) by congruence.
  assert (Hl2 : r2 <> rl) by congruence.
  destruct (clean_frame dl logistics_spec) as [d1l|];
    [|raised].
  unfold handle_outliers.
  rewrite (bind_in_place _ _ r1 d1s)
    by (unfold σ1; rewrite lookup_insert_ne by congruence; apply lookup_insert_eq).
  cbn [mbind option_bind].
  destruct (handle_outliers_frame d1s "on_time_delivery") as [d2s|];
    [|raised].
  rewrite (bind_in_place _ _ r2 d1l)
    by (rewrite lookup_insert_ne by congruence; apply lookup_insert_eq).
  destruct (handle_outliers_frame d1l "transit_time_days") as [d2l|];
    [|raised].
  unfold standardize_countries.
  rewrite (bind_in_place _ _ r2 d2l) by apply lookup_insert_eq.
  rewrite (bind_in_place _ _ r2 _) by apply lookup_insert_eq.
  unfold validate_data.
  rewrite (bind_in_place _ _ r2 _) by apply lookup_insert_eq.
  cbv beta iota. cbn [mbind option_bind].
  destruct (validate_frame _ _ _) as [d5|];
    [|raised].
  unfold ret. split.
  - split; [discriminate | intros [E|E]; discriminate].
  - intros rs' rl' σ' [= <- <- <-]. unfold σ1.
    repeat split; auto.
    + now rewrite !lookup_insert_ne by congruence.
    + now rewrite !lookup_insert_ne by congruence.
    + rewrite !(lookup_insert_ne _ r2 r1) by congruence. apply lookup_insert_eq.
    + apply lookup_insert_eq.
    + intros k Hk1 Hk2. now rewrite !lookup_insert_ne by congruence.
Qed.

End Chains.

(** ** The records of the two sources, whatever the response *)

Section Records.
Context `{Collaborators}.

(** X18. Whatever the weather service answers, the record of
    [get_weather_for_country] carries one of the four risks 0.2, 0.5, 0.7
    and 0.8. The risk is 0.5 only in the fallback record of lines 160-161;
    with any other risk the request was answered and the risk is the one that
    lines 151-156 give for the condition text of the record. *)
Theorem weather_record_risk (country : string) :
  let r := get_weather_for_country country in
  (weather_risk r = (2 # 10)%Q \/ weather_risk r = (5 # 10)%Q \/
   weather_risk r = (7 # 10)%Q \/ weather_risk r = (8 # 10)%Q) /\
  (weather_risk r = (5 # 10)%Q -> r = weather_fallback country) /\
  (weather_risk r <> (5 # 10)%Q ->
   weather_try country = Some r /\
   weather_risk r = risk_of_condition (weather_condition r)).
Proof.
  assert (Hrisk : forall text,
            (risk_of_condition text = (2 # 10)%Q \/
             risk_of_condition text = (7 # 10)%Q \/
             risk_of_condition text = (8 # 10)%Q)).
  { intros text. unfold risk_of_condition.
    destruct (_ || _); [auto|]. destruct (contains "snow" _); auto. }
  unfold get_weather_for_country.
  destruct (weather_try country) as [r|] eqn:E; simpl.
  - unfold weather_try in E.
    destruct (weather_api country) as [data|]; [|discriminate]. simpl in E.
    destruct (subscript data "current") as [current|]; [|discriminate]. simpl in E.
    destruct (subscript current "condition" ≫= _) as [condition|];
      [|discriminate]. simpl in E.
    destruct (subscript current "temp_c") as [temp_c|]; [|discriminate]. simpl in E.
    destruct (as_str condition) as [text|]; [|discriminate]. simpl in E.
    injection E as <-. simpl.
    destruct (Hrisk text) as [E|[E|E]]; rewrite E;
      (split; [auto | split; [discriminate | auto]]).
  - split; [auto|]. split; [reflexivity|]. intros Hne. exfalso. now apply Hne.
Qed.

(** X19. When the polarity of a text lies between -1 and 1, the record of
    [get_news_sentiment_for_country] has, whatever the news service answers,
    a sentiment between -1 and 1. When it has a risk, the risk lies between 0
    and 1 and is [1 - (sentiment + 1) / 2]: the fallback pair 0.0 and 0.5 of
    line 192 obeys the formula of line 189. A record without a risk has
    sentiment 0. *)
Theorem news_record_risk (country : string) :
  (forall t, (-1 <= polarity t)%Q /\ (polarity t <= 1)%Q) ->
  let r := get_news_sentiment_for_country country in
  (-1 <= news_sentiment r)%Q /\ (news_sentiment r <= 1)%Q /\
  (forall risk, news_risk r = Some risk ->
     (risk == risk_of_sentiment (news_sentiment r))%Q /\
     (0 <= risk)%Q /\ (risk <= 1)%Q) /\
  (news_risk r = None -> news_sentiment r = 0%Q).
Proof.
  intros Hpol.
  assert (Hfb : forall c, let r := news_fallback c in
            (-1 <= news_sentiment r)%Q /\ (news_sentiment r <= 1)%Q /\
            (forall risk, news_risk r = Some risk ->
               (risk == risk_of_sentiment (news_sentiment r))%Q /\
               (0 <= risk)%Q /\ (risk <= 1)%Q) /\
            (news_risk r = None -> news_sentiment r = 0%Q)).
  { intros c. simpl. split; [lra|]. split; [lra|]. split; [|discriminate].
    intros risk [= <-]. split; [reflexivity|]. split; lra. }
  unfold get_news_sentiment_for_country.
  destruct (news_try country) as [r|] eqn:E; simpl; [|exact (Hfb country)].
  unfold news_try in E.
  destruct (news_api country) as [data|]; [|discriminate]. simpl in E.
  destruct data as [| | | | |fields]; try discriminate.
  destruct (falsy _) eqn:Hf.
  - injection E as <-. simpl. split; [lra|]. split; [lra|].
    split; [discriminate | reflexivity].
  - destruct (default _ _) as [| | | |items|]; try discriminate.
    destruct (mapM article_text items) as [texts|] eqn:Ht; [|discriminate].
    simpl in E. injection E as <-. simpl.
    assert (Hne : map polarity texts <> []).
    { destruct texts; [|discriminate]. apply length_mapM in Ht.
      destruct items; [discriminate Hf | discriminate Ht]. }
    assert (Hb := average_bounds (map polarity texts) Hne).
    assert (Hall : Forall (fun q => (-1 <= q)%Q /\ (q <= 1)%Q) (map polarity texts)).
    { apply List.Forall_forall. intros x Hx.
      apply in_map_iff in Hx as [t [<- _]]. apply Hpol. }
    specialize (Hb Hall). destruct Hb as [Hlo Hhi].
    set (avg := (Qsum _ / _)%Q) in *. clearbody avg.
    split; [exact Hlo|]. split; [exact Hhi|]. split; [|discriminate].
    intros risk [= <-]. split; [reflexivity|].
    unfold risk_of_sentiment, Qdiv. change (/ 2)%Q with (1 # 2)%Q. split; lra.
Qed.

End Records.

(** ** The cap stays within the span of the column *)

Lemma sort_In (y : Q) (l : list Q) : In y (sort l) -> In y l.
Proof.
  induction l as [|x l IH]; simpl; [auto|].
  intros Hy. apply insert_sorted_In in Hy as [->|Hy]; auto.
Qed.

Lemma nums_In (q : Q) (s : Series) : In q (nums s) -> In (Num q) s.
Proof.
  unfold nums. rewrite in_flat_map. intros [c [Hc Hq]].
  destruct c; simpl in Hq; try contradiction. destruct Hq as [<-|[]]. exact Hc.
Qed.

Lemma quantile_sorted_between (xs : list Q) (p a b : Q) :
  xs <> [] -> (0 <= p)%Q -> (p <= 1)%Q ->
  Forall (fun x => (a <= x)%Q /\ (x <= b)%Q) xs ->
  (a <= quantile_sorted xs p)%Q /\ (quantile_sorted xs p <= b)%Q.
Proof.
  intros Hne H0 H1 Hall. unfold quantile_sorted.
  set (m := inject_Z (Z.of_nat (length xs) - 1)).
  assert (Hlen : (0 < length xs)%nat) by (destruct xs; simpl; [congruence|lia]).
  assert (Hm : (0 <= m)%Q).
  { unfold m. change 0%Q with (inject_Z 0). rewrite <- Zle_Qle. lia. }
  set (h := (m * p)%Q).
  assert (Hh0 : (0 <= h)%Q) by (unfold h; nra).
  assert (Hhm : (h <= m)%Q) by (unfold h; nra).
  assert (Hf0 : (0 <= Qfloor h)%Z).
  { change 0%Z with (Qfloor 0). now apply Qfloor_resp_le. }
  assert (Hfm : (Qfloor h <= Z.of_nat (length xs) - 1)%Z).
  { rewrite <- (Qfloor_Z (Z.of_nat (length xs) - 1)). now apply Qfloor_resp_le. }
  pose proof (Qfloor_le h) as Hg0. pose proof (Qlt_floor h) as Hg1.
  rewrite inject_Z_plus in Hg1. change (inject_Z 1) with 1%Q in Hg1.
  set (i := Z.to_nat (Qfloor h)).
  assert (Hi : (i < length xs)%nat) by (unfold i; lia).
  set (g := (h - inject_Z (Qfloor h))%Q).
  assert (Hg : (0 <= g)%Q /\ (g <= 1)%Q) by (unfold g; split; lra).
  rewrite List.Forall_forall in Hall.
  assert (Hlo : (a <= nth i xs 0)%Q /\ (nth i xs 0 <= b)%Q).
  { apply Hall, nth_In, Hi. }
  set (lo := nth i xs 0%Q) in *.
  assert (Hhi : (a <= nth (S i) xs lo)%Q /\ (nth (S i) xs lo <= b)%Q).
  { destruct (Nat.lt_ge_cases (S i) (length xs)) as [Hlt|Hge].
    - apply Hall, nth_In, Hlt.
    - now rewrite nth_overflow. }
  set (hi := nth (S i) xs lo) in *.
  clearbody g lo hi. destruct Hg, Hlo, Hhi. split; nra.
Qed.

(** X20. [handle_outliers] keeps a column within any interval that already
    holds it: when every cell of the column is missing or a number between
    [a] and [b], the call raises nothing and every cell of the capped column
    is again missing or a number between [a] and [b]. A value is moved only
    to a fence that lies between the quartiles and the value itself, so the
    cap of line 109 brings no transit time out of the range that line 126
    validates. *)
Theorem handle_outliers_within_span (df : DataFrame) (column : string)
    (s : Series) (a b : Q) :
  get_col df column = Some s ->
  Forall (fun c => c = NaN \/ in_range a b c) s ->
  exists s',
    handle_outliers_frame df column = Some (set_col df column s') /\
    Forall (fun c => c = NaN \/ in_range a b c) s'.
Proof.
  intros Hg Hall.
  assert (Hn : forallb is_numeric_cell s = true).
  { apply forallb_forall. intros c Hc. rewrite List.Forall_forall in Hall.
    destruct (Hall c Hc) as [->|[q [-> _]]]; reflexivity. }
  unfold handle_outliers_frame. rewrite Hg. unfold quantile. rewrite Hn.
  cbn [mbind option_bind].
  destruct (sort (nums s)) as [|x xs] eqn:Hsort.
  - exists s. split; [reflexivity | exact Hall].
  - eexists. split; [reflexivity|].
    assert (Hne : x :: xs <> []) by discriminate.
    assert (Hin : Forall (fun y => (a <= y)%Q /\ (y <= b)%Q) (x :: xs)).
    { apply List.Forall_forall. intros y Hy. rewrite <- Hsort in Hy.
      apply sort_In, nums_In in Hy. rewrite List.Forall_forall in Hall.
      destruct (Hall _ Hy) as [E|[q [E Hq]]]; [discriminate|].
      injection E as ->. exact Hq. }
    assert (Hsorted : StronglySorted Qle (x :: xs)).
    { rewrite <- Hsort. apply sort_sorted. }
    destruct (quantile_sorted_between (x :: xs) (1 # 4) a b Hne) as [Ha1 Hb1];
      [lra | lra | exact Hin |].
    destruct (quantile_sorted_between (x :: xs) (3 # 4) a b Hne) as [Ha3 Hb3];
      [lra | lra | exact Hin |].
    assert (H13 := quantile_sorted_mono (x :: xs) (1 # 4) (3 # 4) Hsorted Hne).
    assert (Hq : (quantile_sorted (x :: xs) (1 # 4)
                  <= quantile_sorted (x :: xs) (3 # 4))%Q) by (apply H13; lra).
    clear H13.
    set (q1 := quantile_sorted (x :: xs) (1 # 4)) in *.
    set (q3 := quantile_sorted (x :: xs) (3 # 4)) in *.
    clearbody q1 q3.
    apply List.Forall_forall. intros c Hc. unfold clip in Hc.
    apply in_map_iff in Hc as [c0 [<- Hc0]].
    rewrite List.Forall_forall in Hall.
    destruct (Hall c0 Hc0) as [->|[q [-> [Hqa Hqb]]]]; [now left|].
    right. eexists. split; [reflexivity|].
    assert (Hle : (q1 - (3 # 2) * (q3 - q1) <= q3 + (3 # 2) * (q3 - q1))%Q) by lra.
    destruct (clip_value_spec _ _ q Hle) as (Hlow & Hup & Hmid & _).
    destruct (Qlt_le_dec q (q1 - (3 # 2) * (q3 - q1))) as [Hlt|Hge].
    + rewrite (Hlow Hlt). split; lra.
    + destruct (Qlt_le_dec (q3 + (3 # 2) * (q3 - q1)) q) as [Hgt|Hle2].
      * rewrite (Hup Hgt). split; lra.
      * rewrite (Hmid (conj Hge Hle2)). split; assumption.
Qed.

(** * The further properties on the sample data *)




(** The first pass keeps the three columns and the four rows of the sample. *)
Lemma clean_data_shape_sample :
  column_names sample_cleaned = column_names sample_logistics /\
  (forall c s, get_col sample_logistics c = Some s ->
     exists s1, get_col sample_cleaned c = Some s1 /\
                length s1 = length (select (keep_mask sample_logistics) s)) /\
  (forall c, get_col sample_logistics c = None -> get_col sample_cleaned c = None).
Proof.
  apply (@clean_data_shape sample_collaborators sample_logistics sample_cleaned
           sample_spec).
  vm_compute. reflexivity.
Defined.

(** With the lists of the logistics frame, the column [ship_date] of the
    sample is in none of them and keeps its text. *)
Lemma clean_data_leaves_other_columns_sample :
  exists d1,
    @clean_frame sample_collaborators sample_logistics logistics_spec = Some d1 /\
    get_col d1 "ship_date"
    = (select (keep_mask sample_logistics) <$> get_col sample_logistics "ship_date").
Proof.
  eexists. split; [vm_compute; reflexivity|].
  apply (@clean_data_leaves_other_columns sample_collaborators sample_logistics _
           logistics_spec "ship_date").
  - vm_compute. reflexivity.
  - simpl. intros [E|[]]. discriminate.
  - simpl. intros [E|[E|[]]]; discriminate.
  - simpl. intros [].
Defined.




(** The cleaned sample has two equal rows: the first call drops one, the
    second finds nothing to drop. *)
Lemma drop_duplicates_idempotent_sample :
  drop_duplicates sample_cleaned = sample_cleaned_twice /\
  drop_duplicates (drop_duplicates sample_cleaned) = drop_duplicates sample_cleaned.
Proof.
  split; [reflexivity|].
  apply (drop_duplicates_idempotent sample_cleaned).
  repeat constructor.
Defined.

Lemma handle_outliers_after_clean_sample :
  exists d2 s',
    handle_outliers_frame sample_cleaned "transit_time_days" = Some d2 /\
    column_names d2 = column_names sample_cleaned /\
    get_col d2 "transit_time_days" = Some s' /\
    length s' = 4%nat /\
    Forall (fun c => exists q, c = Num q) s' /\
    (forall other, other <> "transit_time_days" ->
       get_col d2 other = get_col sample_cleaned other).
Proof.
  apply (@handle_outliers_after_clean sample_collaborators sample_logistics
           sample_cleaned sample_spec "transit_time_days"
           [Num 10; Num 10; Num 10; Num 12]).
  - vm_compute. reflexivity.
  - simpl. auto.
  - reflexivity.
Defined.

(** The quartiles of the sample are 5 and 7: the values 5, 6 and 7 stay, and
    4 and 400 stay on their sides of them. *)
Lemma handle_outliers_keeps_order_sample :
  exists s',
    handle_outliers_frame sample_transit "transit_time_days"
      = Some (set_col sample_transit "transit_time_days" s') /\
    s' !! 2%nat = Some (Num 6).
Proof.
  destruct (handle_outliers_keeps_order sample_transit "transit_time_days"
              [Num 4; Num 5; Num 6; Num 7; Num 400] (20 # 4) (28 # 4)
              eq_refl eq_refl eq_refl eq_refl)
    as (s' & Hrun & _ & _ & Hmid & _).
  exists s'. split; [exact Hrun|].
  apply Hmid; [reflexivity|]. split; discriminate.
Defined.

Lemma validate_data_idempotent_sample :
  validate_frame [("transit_time_days", [Num 4; Num 5; Num 6; Num 7; Num 0])]
    "transit_time_days" (Some (0, 365)%Q)
  = Some [("transit_time_days", [Num 4; Num 5; Num 6; Num 7; Num 0])].
Proof.
  apply (validate_data_idempotent sample_transit _ "transit_time_days" 0 365
           [Num 4; Num 5; Num 6; Num 7; Num 400]); reflexivity.
Defined.

Lemma each_country_fetched_once_sample :
  List.NoDup ["France"; "Spain"] /\
  (forall n, In n ["France"; "Spain"; "France"] <-> In n ["France"; "Spain"]) /\
  length (@weather_data sample_collaborators ["France"; "Spain"]) = 2%nat /\
  length (@news_data sample_collaborators ["France"; "Spain"]) = 2%nat /\
  map w_country (@weather_data sample_collaborators ["France"; "Spain"])
    = ["France"; "Spain"] /\
  map n_country (@news_data sample_collaborators ["France"; "Spain"])
    = ["France"; "Spain"].
Proof.
  apply (@each_country_fetched_once sample_collaborators
           ["France"; "Spain"; "France"] ["France"; "Spain"]).
  reflexivity.
Defined.

(** The three rows of the sample receive the weather and the news of France,
    Spain and France. *)
Lemma merge_realtime_enriches_each_row_sample :
  @merge_realtime sample_collaborators sample_json_cell sample_base
    ["France"; "Spain"]
  = Some [("origin_country", [Str "France"; Str "Spain"; Str "France"]);
          ("transit_time_days", [Num 3; Num 5; Num 8]);
          ("weather_condition",
           [Str "Light Rain shower"; Str "Sunny"; Str "Light Rain shower"]);
          ("temperature_c", [Num 12; Num 25; Num 12]);
          ("weather_risk", [Num (8 # 10); Num (2 # 10); Num (8 # 10)]);
          ("news_sentiment", [Num (-1 # 4); Num 0; Num (-1 # 4)]);
          ("news_risk", [Num (5 # 8); Num (5 # 10); Num (5 # 8)])].
Proof.
  rewrite (@merge_realtime_enriches_each_row sample_collaborators sample_json_cell
             sample_base ["France"; "Spain"; "France"] ["France"; "Spain"]).
  - vm_compute. reflexivity.
  - reflexivity.
  - reflexivity.
  - discriminate.
  - repeat constructor.
  - simpl. intros n [<-|[<-|[]]] Hin;
      repeat (destruct Hin as [Hin|Hin]; [discriminate|]); exact Hin.
Defined.

Lemma merge_realtime_raises_without_rows_sample :
  @merge_realtime sample_collaborators sample_json_cell
    [("origin_country", []); ("transit_time_days", [])] [] = None.
Proof.
  apply (@merge_realtime_raises_without_rows sample_collaborators sample_json_cell
           [("origin_country", []); ("transit_time_days", [])]).
  reflexivity.
Defined.


(** The script on a store that holds the two sample frames as objects 0 and
    1: the results are the new objects 2 and 3. *)
Lemma cleaning_script_on_store_sample :
  exists σ',
    @cleaning_script sample_collaborators 0%nat 1%nat
      (<[1%nat := sample_shipments]> (<[0%nat := sample_supplier]> ∅))
    = Some ((2%nat, 3%nat), σ') /\
    σ' !! 0%nat = Some sample_supplier /\
    σ' !! 1%nat = Some sample_shipments /\
    σ' !! 2%nat = @supplier_frame sample_collaborators sample_supplier /\
    σ' !! 3%nat = @logistics_frame sample_collaborators sample_shipments.
Proof.
  eexists. split; [vm_compute; reflexivity|].
  destruct (@cleaning_script_on_store sample_collaborators
              (<[1%nat := sample_shipments]> (<[0%nat := sample_supplier]> ∅))
              0%nat 1%nat sample_supplier sample_shipments)
    as [_ Hrun]; [discriminate | reflexivity | reflexivity |].
  edestruct Hrun as (_ & _ & _ & Hs & Hl & Hs' & Hl' & _);
    [vm_compute; reflexivity|].
  repeat split; assumption.
Defined.

Lemma news_record_risk_sample :
  let r := @get_news_sentiment_for_country sample_collaborators "France" in
  (-1 <= news_sentiment r)%Q /\ (news_sentiment r <= 1)%Q /\
  (forall risk, news_risk r = Some risk ->
     (risk == risk_of_sentiment (news_sentiment r))%Q /\
     (0 <= risk)%Q /\ (risk <= 1)%Q) /\
  (news_risk r = None -> news_sentiment r = 0%Q).
Proof.
  exact (@news_record_risk sample_collaborators "France" sample_polarity_range).
Defined.

(** The transit times of the sample lie between 4 and 400, and so do the
    capped ones. *)
Lemma handle_outliers_within_span_sample :
  exists s',
    handle_outliers_frame sample_transit "transit_time_days"
      = Some (set_col sample_transit "transit_time_days" s') /\
    Forall (fun c => c = NaN \/ in_range 4 400 c) s'.
Proof.
  apply (handle_outliers_within_span sample_transit "transit_time_days"
           [Num 4; Num 5; Num 6; Num 7; Num 400] 4 400 eq_refl).
  repeat (constructor;
          [right; eexists; split; [reflexivity | split; discriminate]|]).
  constructor.
Defined.
